(** * nodecast-tv: playlist parser, guide parser and schedule resolver

    A shallow embedding of [src/server/services/m3uParser.js] and
    [src/server/services/epgParser.js], and the properties of the
    specification stated over it.

    JavaScript strings are sequences of UTF-16 code units; they are modelled
    as lists of code units ([list N]), so that [charCodeAt], [startsWith],
    [split], [trim], [substring] and the regular expressions of the source
    act on the same data as in the program. *)

From Stdlib Require Import ZArith NArith List Bool Lia String Ascii.
From Stdlib Require Import Permutation Sorted.
From Equations Require Import Equations.
Import ListNotations.

Open Scope Z_scope.

(* ===================================================================== *)
(** ** JavaScript strings and the built-ins the parsers use *)
(* ===================================================================== *)

Module JS.

(** A string is its list of UTF-16 code units. *)
Definition jsstring := list N.

(** An ASCII literal, as a JavaScript string. *)
Definition lit (s : string) : jsstring :=
  map N_of_ascii (list_ascii_of_string s).

(** Several ASCII literals joined by line feeds: a text of several lines. *)
Fixpoint text (lines : list string) : jsstring :=
  match lines with
  | [] => []
  | [l] => lit l
  | l :: more => lit l ++ 10%N :: text more
  end.

(** An ASCII literal between double quotes (code unit 34). *)
Definition quoted (s : string) : jsstring := 34%N :: lit s ++ [34%N].

(** A value that is either a string or [null]/[undefined]. *)
Definition nullable := option jsstring.

(** [ToBoolean] on a string: the empty string is falsy. *)
Definition truthy (s : jsstring) : bool :=
  match s with [] => false | _ :: _ => true end.

(** [ToBoolean] on a nullable string: [null], [undefined] and [""] are falsy. *)
Definition truthy_opt (o : nullable) : bool :=
  match o with None => false | Some s => truthy s end.

(** [a || b] where [b] is a string. *)
Definition or_else (a : nullable) (b : jsstring) : jsstring :=
  match a with
  | Some s => if truthy s then s else b
  | None => b
  end.

(** [a || b] where [b] may itself be [null]. *)
Definition or_opt (a b : nullable) : nullable :=
  if truthy_opt a then a else b.

Fixpoint eqb (a b : jsstring) : bool :=
  match a, b with
  | [], [] => true
  | x :: a', y :: b' => N.eqb x y && eqb a' b'
  | _, _ => false
  end.

(** [s.startsWith(p)] *)
Fixpoint startsWith (p s : jsstring) : bool :=
  match p, s with
  | [], _ => true
  | x :: p', y :: s' => N.eqb x y && startsWith p' s'
  | _ :: _, [] => false
  end.

(** Remainder of [s] after the literal prefix [p], when [s] starts with it. *)
Fixpoint stripPrefix (p s : jsstring) : option jsstring :=
  match p, s with
  | [], _ => Some s
  | x :: p', y :: s' => if N.eqb x y then stripPrefix p' s' else None
  | _ :: _, [] => None
  end.

(** The longest prefix whose code units satisfy [f], and the remainder:
    what a greedy [c*] of a regular expression consumes. *)
Fixpoint span (f : N -> bool) (s : jsstring) : jsstring * jsstring :=
  match s with
  | [] => ([], [])
  | c :: t =>
      if f c then let (a, b) := span f t in (c :: a, b) else ([], s)
  end.

(** ECMAScript [WhiteSpace] and [LineTerminator] code units: the set that
    [String.prototype.trim] strips and that [\s] matches. *)
Definition isWhiteSpace (c : N) : bool :=
  ((9 <=? c) && (c <=? 13) || (c =? 32) || (c =? 160) || (c =? 5760)
   || (8192 <=? c) && (c <=? 8202) || (c =? 8232) || (c =? 8233)
   || (c =? 8239) || (c =? 8287) || (c =? 12288) || (c =? 65279))%N.

(** ECMAScript [LineTerminator]: the code units [.] does not match. *)
Definition isLineTerminator (c : N) : bool :=
  ((c =? 10) || (c =? 13) || (c =? 8232) || (c =? 8233))%N.

(** [\d] *)
Definition isDigit (c : N) : bool := ((48 <=? c) && (c <=? 57))%N.

Fixpoint trimStart (s : jsstring) : jsstring :=
  match s with
  | [] => []
  | c :: t => if isWhiteSpace c then trimStart t else s
  end.

Definition trimEnd (s : jsstring) : jsstring := rev (trimStart (rev s)).

(** [s.trim()] *)
Definition trim (s : jsstring) : jsstring := trimEnd (trimStart s).

(** [s.split(sep)] for a one-unit separator: always at least one piece. *)
Fixpoint split (sep : N) (s : jsstring) : list jsstring :=
  match s with
  | [] => [[]]
  | c :: t =>
      if N.eqb c sep then [] :: split sep t
      else match split sep t with
           | [] => [[c]]
           | h :: r => (c :: h) :: r
           end
  end.

(** [s.substring(start)]: a negative start is clamped to 0, one past the end
    gives the empty string. *)
Definition substring (s : jsstring) (start : Z) : jsstring :=
  skipn (Z.to_nat (Z.max 0 start)) s.

(** [s.substring(start, stop)] for [0 <= start <= stop]. *)
Definition substring2 (s : jsstring) (start stop : Z) : jsstring :=
  firstn (Z.to_nat (stop - start)) (substring s start).

(** [s.lastIndexOf(c)] for a one-unit needle; [-1] when absent. *)
Fixpoint lastIndexOf (c : N) (s : jsstring) : Z :=
  match s with
  | [] => -1
  | x :: t =>
      let r := lastIndexOf c t in
      if 0 <=? r then r + 1
      else if N.eqb x c then 0 else -1
  end.

(** [s.replace(/\s+/g, '_')]: every maximal run of white space becomes one
    underscore. *)
Fixpoint replaceSpaceRuns (inRun : bool) (s : jsstring) : jsstring :=
  match s with
  | [] => []
  | c :: t =>
      if isWhiteSpace c
      then (if inRun then replaceSpaceRuns true t
            else 95%N :: replaceSpaceRuns true t)
      else c :: replaceSpaceRuns false t
  end.

(** Leftmost match of an unanchored regular expression: [m] tells whether,
    and with which captures, the expression matches at the start of a
    suffix; the suffixes are tried from left to right, the empty one last. *)
Fixpoint regexSearch {A : Type} (m : jsstring -> option A) (s : jsstring)
  : option A :=
  match m s with
  | Some r => Some r
  | None => match s with
            | [] => None
            | _ :: t => regexSearch m t
            end
  end.

(** Canonicalisation of a code unit for a case-insensitive match against an
    ASCII pattern character (flag [i] without flag [u]): ASCII letters are
    upper-cased, and a non-ASCII unit never canonicalises to an ASCII one. *)
Definition canonicalize (c : N) : N :=
  if ((97 <=? c) && (c <=? 122))%N then (c - 32)%N else c.

(** Remainder of [s] after the ASCII pattern [p] matched case-insensitively. *)
Fixpoint stripPrefixCI (p s : jsstring) : option jsstring :=
  match p, s with
  | [], _ => Some s
  | x :: p', y :: s' =>
      if N.eqb (canonicalize x) (canonicalize y) then stripPrefixCI p' s'
      else None
  | _ :: _, [] => None
  end.

(** Digits of a positive number in a radix, least significant first;
    [fuel] bounds the number of digits. *)
Fixpoint digitsRev (fuel : nat) (radix n : Z) : list Z :=
  match fuel with
  | O => []
  | S k => if n <? radix then [n]
           else (n mod radix) :: digitsRev k radix (n / radix)
  end.

(** The character of a digit below 36: [0-9a-z]. *)
Definition digitChar (d : Z) : N :=
  Z.to_N (if d <? 10 then 48 + d else 87 + d).

(** [Number.prototype.toString(radix)] on an integer. *)
Definition toStringRadix (radix n : Z) : jsstring :=
  let a := Z.abs n in
  let ds := map digitChar (rev (digitsRev (S (Z.to_nat (Z.log2 a))) radix a)) in
  if n <? 0 then 45%N :: ds else ds.

(** [ToInt32]: reduction modulo 2^32 into the signed 32-bit range. *)
Definition ToInt32 (z : Z) : Z :=
  let m := z mod 4294967296 in
  if 2147483648 <=? m then m - 4294967296 else m.

(** [a << k] on Numbers: both operands go through [ToInt32] (the count is
    taken modulo 32) and so does the result. *)
Definition shl (a k : Z) : Z :=
  ToInt32 (Z.shiftl (ToInt32 a) (k mod 32)).

(** [a & b] on Numbers. *)
Definition band (a b : Z) : Z := Z.land (ToInt32 a) (ToInt32 b).

End JS.

Import JS.

(* ===================================================================== *)
(** ** The playlist parser: [m3uParser.js] *)
(* ===================================================================== *)

Module M3u.

(** [generateStableId(name, group)]: the loop over [str], one step per code
    unit [char = str.charCodeAt(i)]. *)
Definition hashStep (hash : Z) (char : N) : Z :=
  let hash := (shl hash 5 - hash) + Z.of_N char in
  band hash hash.

Definition generateStableId (name group : nullable) : jsstring :=
  let str := or_else name (lit "unknown") ++ lit ":" ++ or_else group (lit "unknown") in
  let hash := fold_left hashStep str 0 in
  lit "m3u_" ++ toStringRadix 36 (Z.abs hash).

(** The descriptor [parseExtinf] returns: the object literal [info]. The
    duration is kept as the text handed to [parseFloat]; no property below
    reads it. *)
Module Info.
Record t := {
  duration : jsstring;
  tvgId : nullable;
  tvgName : nullable;
  tvgLogo : nullable;
  groupTitle : nullable;
  name : nullable
}.
End Info.

(** An emitted channel: [{...currentInfo, id, url, groupTitle}]. *)
Module Channel.
Record t := {
  duration : jsstring;
  tvgId : nullable;
  tvgName : nullable;
  tvgLogo : nullable;
  name : nullable;
  id : jsstring;
  url : jsstring;
  groupTitle : jsstring
}.
End Channel.

(** A group: [{id, name, channelCount}]. *)
Module Group.
Record t := {
  id : jsstring;
  name : jsstring;
  channelCount : nat
}.
End Group.

(** What a call does: it returns a value or throws an [Error]. *)
Inductive outcome (A : Type) : Type :=
| Return (a : A)
| Throw (message : jsstring).
Arguments Return {A} a.
Arguments Throw {A} message.

(** The result of [parse]: [{channels, groups}]. *)
Record playlist := {
  channels : list Channel.t;
  groups : list Group.t
}.

(** The scan state of [parse]: its four mutable locals. *)
Record scan := {
  currentInfo : option Info.t;
  currentGroup : nullable;
  chans : list Channel.t;
  groupsSet : list jsstring
}.

(** [groupsSet.add(g)]: a [Set] keeps insertion order and ignores an element
    it already holds. *)
Definition setAdd (g : jsstring) (set : list jsstring) : list jsstring :=
  if existsb (eqb g) set then set else set ++ [g].

(** The regular expression of [parseExtinf] (source line 103) at the start
    of [s]: the literal [#EXTINF:], capture 1 (an optional [-], one or more
    digits, an optional [.], any number of digits), any white space, and
    capture 2 (the longest run of units that are not line terminators); the
    result is [(match[1], match[2])]. Once the digits have matched, every
    later item can match the empty string, so the greedy choice is the
    match; dropping an optional [-] that is not followed by a digit leaves
    the digits facing the [-] and fails as well. *)
Definition extinfPattern (s : jsstring) : option (jsstring * jsstring) :=
  match stripPrefix (lit "#EXTINF:") s with
  | None => None
  | Some s1 =>
      let (sign, s2) :=
        match s1 with
        | 45%N :: t => ([45%N], t)
        | _ => ([], s1)
        end in
      let (int, s3) := span isDigit s2 in
      match int with
      | [] => None
      | _ :: _ =>
          let (dot, s4) :=
            match s3 with
            | 46%N :: t => ([46%N], t)
            | _ => ([], s3)
            end in
          let (frac, s5) := span isDigit s4 in
          let (_, s6) := span isWhiteSpace s5 in
          let (rest, _) := span (fun c => negb (isLineTerminator c)) s6 in
          Some (sign ++ int ++ dot ++ frac, rest)
      end
  end.

(** The attribute patterns of [parseExtinf] (source lines 111-114) at the
    start of [s]: the key and [=], matched case-insensitively, a double quote
    (code unit 34), the captured greedy run of units other than the double
    quote, and a closing double quote. The greedy run stops at the first
    quote or at the end of the string, and only the former closes the
    match. *)
Definition attrPattern (key : jsstring) (s : jsstring) : option jsstring :=
  match stripPrefixCI (key ++ [61%N; 34%N]) s with
  | None => None
  | Some s1 =>
      let (value, s2) := span (fun c => negb (N.eqb c 34)) s1 in
      match s2 with
      | 34%N :: _ => Some value
      | _ => None
      end
  end.

Section Parser.

(** [String.prototype.toLowerCase]: the Unicode case mapping, taken as a
    parameter of the model. *)
Variable toLowerCase : jsstring -> jsstring.

(** [parseExtinf(line)]; [now] is what [Date.now()] returns if it is read. *)
Definition parseExtinf (now : Z) (line : jsstring) : Info.t :=
  match regexSearch extinfPattern line with
  | None =>
      {| Info.duration := lit "-1"; Info.tvgId := None; Info.tvgName := None;
         Info.tvgLogo := None; Info.groupTitle := None; Info.name := None |}
  | Some (number, rest) =>
      let tvgId := regexSearch (attrPattern (lit "tvg-id")) rest in
      let tvgName := regexSearch (attrPattern (lit "tvg-name")) rest in
      let tvgLogo := regexSearch (attrPattern (lit "tvg-logo")) rest in
      let groupTitle := regexSearch (attrPattern (lit "group-title")) rest in
      let commaIndex := lastIndexOf 44 rest in
      let name :=
        if commaIndex =? -1 then or_else tvgName (trim rest)
        else trim (substring rest (commaIndex + 1)) in
      let tvgId :=
        if truthy_opt tvgId then tvgId
        else Some (if truthy name
                   then replaceSpaceRuns false (toLowerCase name)
                   else lit "channel_" ++ toStringRadix 10 now) in
      {| Info.duration := number; Info.tvgId := tvgId; Info.tvgName := tvgName;
         Info.tvgLogo := tvgLogo; Info.groupTitle := groupTitle;
         Info.name := Some name |}
  end.

(** [currentInfo.groupTitle = g] *)
Definition setGroupTitle (g : jsstring) (info : Info.t) : Info.t :=
  {| Info.duration := Info.duration info; Info.tvgId := Info.tvgId info;
     Info.tvgName := Info.tvgName info; Info.tvgLogo := Info.tvgLogo info;
     Info.groupTitle := Some g; Info.name := Info.name info |}.

(** The channel pushed for the URL [line] while [info] is pending. *)
Definition makeChannel (info : Info.t) (group : nullable) (line : jsstring)
  : Channel.t :=
  let groupTitle :=
    or_else (or_opt (Info.groupTitle info) group) (lit "Uncategorized") in
  let stableId :=
    or_else (Info.tvgId info) (generateStableId (Info.name info) (Some groupTitle)) in
  {| Channel.duration := Info.duration info; Channel.tvgId := Info.tvgId info;
     Channel.tvgName := Info.tvgName info; Channel.tvgLogo := Info.tvgLogo info;
     Channel.name := Info.name info; Channel.id := stableId;
     Channel.url := line; Channel.groupTitle := groupTitle |}.

(** One iteration of the loop of [parse] on [line = lines[i]]. *)
Definition step (now : Z) (st : scan) (line : jsstring) : scan :=
  if startsWith (lit "#EXTINF:") line then
    let info := parseExtinf now line in
    if truthy_opt (Info.groupTitle info) then
      {| currentInfo := Some info;
         currentGroup := Info.groupTitle info;
         chans := chans st;
         groupsSet := setAdd (or_else (Info.groupTitle info) []) (groupsSet st) |}
    else
      {| currentInfo := Some info; currentGroup := currentGroup st;
         chans := chans st; groupsSet := groupsSet st |}
  else if startsWith (lit "#EXTGRP:") line then
    let g := trim (substring line 8) in
    {| currentInfo := option_map (setGroupTitle g) (currentInfo st);
       currentGroup := Some g;
       chans := chans st;
       groupsSet := setAdd g (groupsSet st) |}
  else if truthy line && negb (startsWith (lit "#") line) then
    match currentInfo st with
    | Some info =>
        {| currentInfo := None; currentGroup := currentGroup st;
           chans := chans st ++ [makeChannel info (currentGroup st) line];
           groupsSet := groupsSet st |}
    | None => st
    end
  else st.

(** The loop [for (let i = ...; i < lines.length; i++)] from index [i] on;
    [clock i] is the reading of [Date.now()] during iteration [i]. *)
Fixpoint scanLines (clock : nat -> Z) (i : nat) (lines : list jsstring)
  (st : scan) : scan :=
  match lines with
  | [] => st
  | line :: more => scanLines clock (S i) more (step (clock i) st line)
  end.

Definition initial : scan :=
  {| currentInfo := None; currentGroup := None; chans := []; groupsSet := [] |}.

(** [channels.filter(c => c.groupTitle === name).length] *)
Definition countIn (cs : list Channel.t) (name : jsstring) : nat :=
  List.length (filter (fun c => eqb (Channel.groupTitle c) name) cs).

(** [Array.from(groupsSet).map((name, index) => ...)] from [index] on. *)
Fixpoint makeGroups (cs : list Channel.t) (index : nat) (names : list jsstring)
  : list Group.t :=
  match names with
  | [] => []
  | name :: more =>
      {| Group.id := lit "group_" ++ toStringRadix 10 (Z.of_nat index);
         Group.name := name;
         Group.channelCount := countIn cs name |}
      :: makeGroups cs (S index) more
  end.

(** [content.split('\n').map(line => line.trim())] *)
Definition linesOf (content : jsstring) : list jsstring :=
  map trim (split 10 content).

(** [parse(content)] *)
Definition parse (clock : nat -> Z) (content : jsstring) : outcome playlist :=
  let lines := linesOf content in
  if match hd_error lines with
     | None => true
     | Some l0 => negb (truthy l0) || negb (startsWith (lit "#EXTM3U") l0)
     end
  then Throw (lit "Invalid M3U format: missing #EXTM3U header")
  else
    let st := scanLines clock 1 (tl lines) initial in
    Return {| channels := chans st;
              groups := makeGroups (chans st) 0 (groupsSet st) |}.

End Parser.

(** The ASCII part of [toLowerCase], for playlists written in ASCII. *)
Definition asciiLower (s : jsstring) : jsstring :=
  map (fun c => if ((65 <=? c) && (c <=? 90))%N then (c + 32)%N else c) s.

End M3u.

(* ===================================================================== *)
(** ** The guide parser and the schedule resolver: [epgParser.js] *)
(* ===================================================================== *)

Module Epg.

(** *** Dates *)

(** What [parseXmltvDate] returns: [null], or a [Date] object, whose time
    value is a number of milliseconds since the epoch or [NaN]
    (an invalid date). *)
Inductive date :=
| Null
| Invalid
| Instant (ms : Z).

(** The value of a run of decimal digits. *)
Definition digitsValue (ds : jsstring) : Z :=
  fold_left (fun a c => 10 * a + (Z.of_N c - 48)) ds 0.

(** Exactly [n] digits at the start of [s], and the remainder. *)
Definition takeDigits (n : nat) (s : jsstring) : option (jsstring * jsstring) :=
  let ds := firstn n s in
  if Nat.eqb (List.length ds) n && forallb isDigit ds
  then Some (ds, skipn n s) else None.

(** The code unit [c] at the start of [s], and the remainder. *)
Definition expect (c : N) (s : jsstring) : option jsstring :=
  match s with
  | x :: t => if N.eqb x c then Some t else None
  | [] => None
  end.

(** The ECMAScript day and time arithmetic behind the [Date] constructor. *)
Definition msPerDay : Z := 86400000.
Definition msPerHour : Z := 3600000.
Definition msPerMinute : Z := 60000.
Definition msPerSecond : Z := 1000.

Definition DayFromYear (y : Z) : Z :=
  365 * (y - 1970) + (y - 1969) / 4 - (y - 1901) / 100 + (y - 1601) / 400.

Definition InLeapYear (y : Z) : bool :=
  (y mod 4 =? 0) && (negb (y mod 100 =? 0) || (y mod 400 =? 0)).

(** Days of the year before the first of month [m] (1 to 12). *)
Definition daysBeforeMonth (leap : bool) (m : Z) : Z :=
  let l := if leap then 1 else 0 in
  if m <=? 1 then 0
  else if m =? 2 then 31
  else if m =? 3 then 59 + l
  else if m =? 4 then 90 + l
  else if m =? 5 then 120 + l
  else if m =? 6 then 151 + l
  else if m =? 7 then 181 + l
  else if m =? 8 then 212 + l
  else if m =? 9 then 243 + l
  else if m =? 10 then 273 + l
  else if m =? 11 then 304 + l
  else 334 + l.

(** [MakeDay] for a month in 1 to 12. *)
Definition MakeDay (year month day : Z) : Z :=
  DayFromYear year + daysBeforeMonth (InLeapYear year) month + day - 1.

Definition MakeTime (hour min sec : Z) : Z :=
  hour * msPerHour + min * msPerMinute + sec * msPerSecond.

Definition MakeDate (day time : Z) : Z := day * msPerDay + time.

(** The zone designator of an ISO string: [Z], or a sign, two digits, a
    colon and two digits, then the end of the string. The result is the
    offset from UTC in minutes. *)
Definition parseZone (s : jsstring) : option Z :=
  match s with
  | [] => None
  | sign :: s1 =>
      if N.eqb sign 90 then
        match s1 with [] => Some 0 | _ :: _ => None end
      else if N.eqb sign 43 || N.eqb sign 45 then
        match takeDigits 2 s1 with
        | None => None
        | Some (hh, s2) =>
            match expect 58 s2 with
            | None => None
            | Some s3 =>
                match takeDigits 2 s3 with
                | Some (mm, []) =>
                    let h := digitsValue hh in
                    let m := digitsValue mm in
                    if (h <=? 23) && (m <=? 59)
                    then Some ((if N.eqb sign 45 then -1 else 1) * (h * 60 + m))
                    else None
                | _ => None
                end
            end
        end
      else None
  end.

(** [new Date(isoStr)] on a string of the shape [parseXmltvDate] builds,
    [YYYY-MM-DDTHH:mm:ss] followed by a zone designator: the ECMAScript
    date-time string format. A field out of range (month 00 or above 12,
    day 00 or above 31, hour above 23 other than 24:00:00, minute or second
    above 59) gives an invalid date; a day of the month between 29 and 31
    that the month does not have rolls over into the next month, as the
    engine the server runs on does. The result is [None] for [NaN]. The
    years 0000 to 9999 are well inside the range of time values, so
    [TimeClip] changes nothing. *)
Definition dateFromISO (s : jsstring) : option Z :=
  match takeDigits 4 s with None => None | Some (year, s) =>
  match expect 45 s with None => None | Some s =>
  match takeDigits 2 s with None => None | Some (month, s) =>
  match expect 45 s with None => None | Some s =>
  match takeDigits 2 s with None => None | Some (day, s) =>
  match expect 84 s with None => None | Some s =>
  match takeDigits 2 s with None => None | Some (hour, s) =>
  match expect 58 s with None => None | Some s =>
  match takeDigits 2 s with None => None | Some (minute, s) =>
  match expect 58 s with None => None | Some s =>
  match takeDigits 2 s with None => None | Some (second, s) =>
  match parseZone s with None => None | Some offset =>
    let y := digitsValue year in
    let mo := digitsValue month in
    let d := digitsValue day in
    let h := digitsValue hour in
    let mi := digitsValue minute in
    let se := digitsValue second in
    if (1 <=? mo) && (mo <=? 12) && (1 <=? d) && (d <=? 31)
       && (((h <=? 23) && (mi <=? 59) && (se <=? 59))
           || ((h =? 24) && (mi =? 0) && (se =? 0)))
    then Some (MakeDate (MakeDay y mo d) (MakeTime h mi se) - offset * msPerMinute)
    else None
  end end end end end end end end end end end end.

(** The captures of the regular expression of [parseXmltvDate] (source line
    20): six digit groups, and the zone group when it took part. *)
Record xmltvMatch := {
  year : jsstring; month : jsstring; day : jsstring;
  hour : jsstring; minute : jsstring; second : jsstring;
  tz : nullable
}.

(** That expression, anchored at both ends: 4+2+2+2+2+2 digits, any white
    space, an optional sign with four digits, the end of the string. The
    white space is taken greedily; giving some of it back leaves a white
    space unit where only a sign or the end can match. *)
Definition xmltvPattern (s : jsstring) : option xmltvMatch :=
  match takeDigits 4 s with None => None | Some (year, s) =>
  match takeDigits 2 s with None => None | Some (month, s) =>
  match takeDigits 2 s with None => None | Some (day, s) =>
  match takeDigits 2 s with None => None | Some (hour, s) =>
  match takeDigits 2 s with None => None | Some (minute, s) =>
  match takeDigits 2 s with None => None | Some (second, s) =>
    let (_, s) := span isWhiteSpace s in
    let result tz :=
      {| year := year; month := month; day := day; hour := hour;
         minute := minute; second := second; tz := tz |} in
    match s with
    | [] => Some (result None)
    | sign :: s1 =>
        if N.eqb sign 43 || N.eqb sign 45 then
          match takeDigits 4 s1 with
          | Some (ds, []) => Some (result (Some (sign :: ds)))
          | _ => None
          end
        else None
    end
  end end end end end end.

Section Dates.

(** [new Date(dateStr)] on a string the expression does not match: the
    engine's own best-effort parsing, a parameter of the model. *)
Variable legacyDate : jsstring -> option Z.

Definition ofTimeValue (t : option Z) : date :=
  match t with Some ms => Instant ms | None => Invalid end.

(** [parseXmltvDate(dateStr)] *)
Definition parseXmltvDate (dateStr : nullable) : date :=
  match dateStr with
  | None => Null
  | Some str =>
      if negb (truthy str) then Null
      else
        match xmltvPattern str with
        | None => ofTimeValue (legacyDate str)
        | Some m =>
            let isoStr :=
              year m ++ lit "-" ++ month m ++ lit "-" ++ day m ++ lit "T"
              ++ hour m ++ lit ":" ++ minute m ++ lit ":" ++ second m in
            let isoStr :=
              match tz m with
              | Some tz =>
                  if truthy tz then
                    let tzHours := substring2 tz 0 3 in
                    let tzMins := substring tz 3 in
                    isoStr ++ tzHours ++ lit ":" ++ tzMins
                  else isoStr ++ lit "Z"
              | None => isoStr ++ lit "Z"
              end in
            ofTimeValue (dateFromISO isoStr)
        end
  end.

End Dates.

(** *** Text extraction *)

(** A value of the tree the XML deserialiser builds: a string, an array of
    values, or an object with its attributes and text merged in. Of an
    object, the model keeps the three properties [extractText] reads:
    [lang], [_] and [#text]. *)
#[local] Unset Elimination Schemes.
Inductive node :=
| Text (s : jsstring)
| Items (entries : list node)
| Element (lang : nullable) (text : nullable) (hashText : nullable).
#[local] Set Elimination Schemes.

(** [e.lang]: only an object has one. *)
Definition langOf (e : node) : nullable :=
  match e with
  | Element lang _ _ => lang
  | _ => None
  end.

(** [ToBoolean] on a value: of these, only the empty string is falsy. *)
Definition truthyNode (e : node) : bool :=
  match e with
  | Text s => truthy s
  | _ => true
  end.

(** [e.lang === 'en'] *)
Definition isEnglish (e : node) : bool :=
  match langOf e with
  | Some l => eqb l (lit "en")
  | None => false
  end.

(** [!e.lang] *)
Definition isUntagged (e : node) : bool := negb (truthy_opt (langOf e)).

(** [en || element[0]], where
    [en = element.find(e => e.lang === 'en' || !e.lang)]. *)
Definition preferred (element : list node) : option node :=
  match find (fun e => isEnglish e || isUntagged e) element with
  | Some en => if truthyNode en then Some en else hd_error element
  | None => hd_error element
  end.

Fixpoint size (e : node) : nat :=
  match e with
  | Items entries =>
      S ((fix sizes (l : list node) : nat :=
            match l with
            | [] => 0%nat
            | x :: r => (size x + sizes r)%nat
            end) entries)
  | _ => 1%nat
  end.

Definition sizeOpt (o : option node) : nat :=
  match o with Some e => size e | None => 0%nat end.

(** [extractText(element)]; [None] is [undefined] or [null], on the way in
    and on the way out. An object that is not an array and has no text
    is rendered by [String]. *)
Equations? extractText (element : option node) : nullable
  by wf (sizeOpt element) lt :=
  extractText None := None;
  extractText (Some (Text s)) := if truthy s then Some s else None;
  extractText (Some (Items entries)) := extractText (preferred entries);
  extractText (Some (Element _ text hashText)) :=
    if truthy_opt text then text
    else if truthy_opt hashText then hashText
    else Some (lit "[object Object]").
Proof.
  assert (Hin : forall e l, In e l -> (size e < size (Items l))%nat).
  { intros e l. simpl. induction l as [|x r IH]; simpl; intros H; [contradiction|].
    destruct H as [->|H]; [lia|]. specialize (IH H). lia. }
  assert (Hhd : (sizeOpt (hd_error entries) < size (Items entries))%nat).
  { destruct entries as [|x r]; [simpl; lia|]. apply (Hin x). now left. }
  unfold preferred.
  destruct (find _ entries) as [en|] eqn:Hf; [|exact Hhd].
  destruct (truthyNode en); [|exact Hhd].
  apply find_some in Hf. apply Hin, Hf.
Qed.

(** [cats.map(c => extractText(c)).filter(Boolean)]: the extractions that
    are not [null]. *)
Definition extractAll (cats : list node) : list nullable :=
  filter truthy_opt (map (fun c => extractText (Some c)) cats).

(** [extractCategories(category)] *)
Definition extractCategories (category : option node) : list nullable :=
  match category with
  | None => []
  | Some c =>
      if negb (truthyNode c) then []
      else
        let cats := match c with Items entries => entries | _ => [c] end in
        extractAll cats
  end.

(** The loop of [extractEpisodeNum] over [nums]: a string is returned as it
    is, an object with text gives its text, anything else is passed over. *)
Fixpoint firstEpisodeNum (nums : list node) : nullable :=
  match nums with
  | [] => None
  | num :: more =>
      match num with
      | Text s => Some s
      | Element _ text hashText =>
          if truthy_opt text || truthy_opt hashText
          then or_opt text hashText
          else firstEpisodeNum more
      | Items _ => firstEpisodeNum more
      end
  end.

(** [extractEpisodeNum(episodeNum)] *)
Definition extractEpisodeNum (episodeNum : option node) : nullable :=
  match episodeNum with
  | None => None
  | Some e =>
      if negb (truthyNode e) then None
      else
        let nums := match e with Items entries => entries | _ => [e] end in
        firstEpisodeNum nums
  end.

(** *** The schedule resolver *)

(** A programme, with the fields the resolver reads and its texts. [start]
    and [stop] are the time values of valid dates. *)
Record programme := {
  channelId : jsstring;
  start : Z;
  stop : Z;
  title : nullable;
  subtitle : nullable;
  description : nullable
}.

(** [getProgrammesForChannel(programmes, channelId)] *)
Definition getProgrammesForChannel (programmes : list programme)
  (id : jsstring) : list programme :=
  filter (fun p => eqb (channelId p) id) programmes.

(** [Array.prototype.sort(comparefn)]: the sort is stable, and with a
    consistent comparison every stable sort gives the same array; here,
    insertion from the right. [comparefn a b <= 0] keeps [a] before [b]. *)
Section Sort.
Context {A : Type} (comparefn : A -> A -> Z).

Fixpoint insert (x : A) (l : list A) : list A :=
  match l with
  | [] => [x]
  | y :: r => if comparefn x y <=? 0 then x :: l else y :: insert x r
  end.

Definition sort (l : list A) : list A := fold_right insert [] l.
End Sort.

(** [l.slice(0, stop)]: a negative [stop] counts from the end. *)
Definition slice0 {A : Type} (l : list A) (stop : Z) : list A :=
  let len := Z.of_nat (List.length l) in
  let final := if stop <? 0 then Z.max (len + stop) 0 else Z.min stop len in
  firstn (Z.to_nat final) l.

(** The result of [getCurrentAndUpcoming]: [{current, upcoming}];
    [current] is [undefined] when [find] finds nothing. *)
Record schedule := {
  current : option programme;
  upcoming : list programme
}.

(** [getCurrentAndUpcoming(programmes, channelId, count = 5)]; [now] is the
    time value of the [new Date()] the function creates, and [count] is
    [None] when the argument is left out. *)
Definition getCurrentAndUpcoming (now : Z) (programmes : list programme)
  (id : jsstring) (count : option Z) : schedule :=
  let count := match count with Some c => c | None => 5 end in
  let channelProgrammes := getProgrammesForChannel programmes id in
  let channelProgrammes := sort (fun a b => start a - start b) channelProgrammes in
  {| current := find (fun p => (start p <=? now) && (stop p >? now)) channelProgrammes;
     upcoming := slice0 (filter (fun p => start p >? now) channelProgrammes) count |}.

End Epg.

(* ===================================================================== *)
(** ** The specification's own wording, as definitions *)
(* ===================================================================== *)

Module Reference.

Import M3u Epg.

(** *** The stable hash, as the specification describes it *)

(** An input counts as absent when it is [null] or [undefined]. *)
Definition isAbsent (x : nullable) : bool :=
  match x with None => true | Some _ => false end.

(** An input counts as absent when it is [null], [undefined] or empty. *)
Definition isAbsentOrEmpty (x : nullable) : bool :=
  match x with None => true | Some [] => true | Some (_ :: _) => false end.

(** Default an absent input to the literal [unknown]. *)
Definition defaulted (absent : nullable -> bool) (x : nullable) : jsstring :=
  if absent x then lit "unknown"
  else match x with Some s => s | None => [] end.

(** One step of the rolling hash: [(hash << 5) - hash + charCode] over the
    integers, truncated to the signed 32-bit range. *)
Definition rollingStep (hash : Z) (charCode : N) : Z :=
  ToInt32 (Z.shiftl hash 5 - hash + Z.of_N charCode).

(** Default, concatenate with a colon, fold the rolling hash from 0, take
    the absolute value, render in base 36, prefix with the tag. *)
Definition stableHash (absent : nullable -> bool) (name group : nullable)
  : jsstring :=
  let str := defaulted absent name ++ lit ":" ++ defaulted absent group in
  lit "m3u_" ++ toStringRadix 36 (Z.abs (fold_left rollingStep str 0)).

(** *** The kinds of playlist line *)

(** A per-entry metadata line. *)
Definition isExtinf (line : jsstring) : bool := startsWith (lit "#EXTINF:") line.

(** A group-override line. *)
Definition isExtgrp (line : jsstring) : bool := startsWith (lit "#EXTGRP:") line.

(** A blank line (lines are trimmed). *)
Definition isBlank (line : jsstring) : bool := negb (truthy line).

(** A comment or directive line. *)
Definition isComment (line : jsstring) : bool := startsWith (lit "#") line.

(** A URL line: not empty and not a comment. *)
Definition isUrl (line : jsstring) : bool := truthy line && negb (isComment line).

(** *** The header *)

(** The first non-empty line of the input begins with the header marker. *)
Definition firstNonEmptyHasMarker (content : jsstring) : bool :=
  match find truthy (linesOf content) with
  | Some line => startsWith (lit "#EXTM3U") line
  | None => false
  end.

(** The first line of the input: the text before the first line feed,
    trimmed. *)
Definition firstLine (content : jsstring) : jsstring :=
  trim (fst (span (fun c => negb (N.eqb c 10)) content)).

(** The first line of the input begins with the header marker. *)
Definition firstLineHasMarker (content : jsstring) : bool :=
  startsWith (lit "#EXTM3U") (firstLine content).

(** *** Counting entries *)

(** The lines after a metadata line reach a URL line, passing only lines
    that [skip] accepts. *)
Fixpoint followedByUrl (skip : jsstring -> bool) (lines : list jsstring) : bool :=
  match lines with
  | [] => false
  | line :: more =>
      if isUrl line then true
      else if skip line then followedByUrl skip more
      else false
  end.

(** The number of metadata lines followed, in that sense, by a URL line. *)
Fixpoint entries (skip : jsstring -> bool) (lines : list jsstring) : nat :=
  match lines with
  | [] => 0%nat
  | line :: more =>
      ((if isExtinf line && followedByUrl skip more then 1 else 0)
       + entries skip more)%nat
  end.

(** Skipping only blank lines and group-override lines. *)
Definition blankOrGroup (line : jsstring) : bool := isBlank line || isExtgrp line.

(** Skipping blank lines and every comment or directive line that is not a
    metadata line. *)
Definition blankOrOtherComment (line : jsstring) : bool :=
  isBlank line || (isComment line && negb (isExtinf line)).

(** *** Text extraction *)

(** The entry the stated preference order selects: the first entry tagged
    as English, else the first entry without a language tag, else the first
    entry. *)
Definition preferredInOrder (entries : list node) : option node :=
  match find isEnglish entries with
  | Some e => Some e
  | None =>
      match find isUntagged entries with
      | Some e => Some e
      | None => hd_error entries
      end
  end.

(** *** The schedule *)

(** The programme covers the reference time: [start <= now < stop]. *)
Definition airing (now : Z) (p : programme) : bool :=
  (start p <=? now) && (now <? stop p).

(** The programme starts strictly after the reference time. *)
Definition later (now : Z) (p : programme) : bool := now <? start p.

(** The call the contract of the specification writes,
    [getCurrentAndUpcoming(programmes, channelId, referenceTime, count)].
    The function declares three parameters,
    [(programmes, channelId, count = 5)]: the third argument is bound to
    [count], the fourth is dropped, and the reference time is the reading
    [now] of the clock. *)
Definition contractCall (now : Z) (programmes : list programme)
  (id : jsstring) (referenceTime count : Z) : schedule :=
  getCurrentAndUpcoming now programmes id (Some referenceTime).

(** How many of the [available] programmes [slice(0, count)] keeps: [count]
    of them when [count] is not negative, all but the last [-count] when it
    is negative. *)
Definition kept (count : Z) (available : nat) : nat :=
  if count <? 0 then Z.to_nat (Z.of_nat available + count)
  else Z.to_nat count.

(** [sorted] lists the programmes whose [channelId] is exactly [id], each
    once, in ascending order of [start], programmes with equal [start] in
    the order they have in [programmes]. *)
Definition channelSchedule (programmes : list programme) (id : jsstring)
  (sorted : list programme) : Prop :=
  Permutation sorted (filter (fun p => eqb (channelId p) id) programmes)
  /\ StronglySorted (fun a b => start a <= start b) sorted
  /\ forall t,
       filter (fun p => start p =? t) sorted
       = filter (fun p => start p =? t)
           (filter (fun p => eqb (channelId p) id) programmes).

(** *** Calendar dates *)

(** The Gregorian leap-year rule. *)
Definition isLeap (y : Z) : bool :=
  if y mod 400 =? 0 then true
  else if y mod 100 =? 0 then false
  else y mod 4 =? 0.

(** The length of month [m] (1 to 12). *)
Definition daysInMonth (leap : bool) (m : Z) : Z :=
  if m =? 2 then (if leap then 29 else 28)
  else if (m =? 4) || (m =? 6) || (m =? 9) || (m =? 11) then 30
  else 31.

(** The days from 1 January of year 0 to 1 January of year [y], counted
    year by year. *)
Fixpoint daysBeforeYear (y : nat) : Z :=
  match y with
  | O => 0
  | S k => daysBeforeYear k + (if isLeap (Z.of_nat k) then 366 else 365)
  end.

(** The days of the months 1 to [m], counted month by month. *)
Fixpoint daysOfMonths (leap : bool) (m : nat) : Z :=
  match m with
  | O => 0
  | S k => daysOfMonths leap k + daysInMonth leap (Z.of_nat (S k))
  end.

(** The number of the day [y]-[m]-[d], counted from 1 January 1970. *)
Definition civilDay (y m d : Z) : Z :=
  daysBeforeYear (Z.to_nat y) - daysBeforeYear 1970
  + daysOfMonths (isLeap y) (Z.to_nat (m - 1)) + (d - 1).

(** The instant, in milliseconds since the epoch, at which a clock showing
    UTC reads [y]-[m]-[d] [h]:[mi]:[s]. *)
Definition civilInstant (y m d h mi s : Z) : Z :=
  civilDay y m d * 86400000 + h * 3600000 + mi * 60000 + s * 1000.

(** [ds] is a run of exactly [n] decimal digits. *)
Definition digits (n : nat) (ds : jsstring) : Prop :=
  List.length ds = n /\ forallb isDigit ds = true.

(** The offset that may follow the date-time: none, or a sign and four
    digits, two for the hours and two for the minutes. *)
Inductive zone :=
| NoZone
| Zone (negative : bool) (hh mm : jsstring).

Definition zoneText (z : zone) : jsstring :=
  match z with
  | NoZone => []
  | Zone negative hh mm => (if negative then 45%N else 43%N) :: hh ++ mm
  end.

(** The offset from UTC, in minutes; UTC itself when none is given. *)
Definition zoneMinutes (z : zone) : Z :=
  match z with
  | NoZone => 0
  | Zone negative hh mm =>
      (if negative then -1 else 1) * (digitsValue hh * 60 + digitsValue mm)
  end.

Definition zoneValid (z : zone) : Prop :=
  match z with
  | NoZone => True
  | Zone _ hh mm =>
      digits 2 hh /\ digits 2 mm
      /\ digitsValue hh <= 23 /\ digitsValue mm <= 59
  end.

(** The fields of a date-time are those of a calendar date and a time of
    day. *)
Definition civilValid (y m d h mi s : Z) : Prop :=
  1 <= m <= 12 /\ 1 <= d <= daysInMonth (isLeap y) m
  /\ h <= 23 /\ mi <= 59 /\ s <= 59.

(** *** Episode numbers *)

(** The entry carries an episode number: it is a string, or an object with
    text. *)
Definition hasNumber (e : node) : bool :=
  match e with
  | Text _ => true
  | Element _ text hashText => truthy_opt text || truthy_opt hashText
  | Items _ => false
  end.

(** The episode number the entry carries: the string itself, or the text of
    the object, [_] before [#text]. *)
Definition numberOf (e : node) : nullable :=
  match e with
  | Text s => Some s
  | Element _ text hashText => if truthy_opt text then text else hashText
  | Items _ => None
  end.

(** The value is not an array. *)
Definition isSingle (e : node) : bool :=
  match e with Items _ => false | _ => true end.

(** *** Reading an identifier back *)

(** The value of a base-36 digit character, [0-9a-z]. *)
Definition digitOf (c : N) : Z :=
  if (c <=? 57)%N then Z.of_N c - 48 else Z.of_N c - 87.

(** The number a run of base-36 digits denotes, most significant first. *)
Definition fromBase36 (s : jsstring) : Z :=
  fold_left (fun a c => 36 * a + digitOf c) s 0.

(** *** Line endings *)

(** The lines of a text, each but the last followed by the end-of-line
    sequence [eol]. *)
Fixpoint joinLines (eol : jsstring) (lines : list jsstring) : jsstring :=
  match lines with
  | [] => []
  | [l] => l
  | l :: more => l ++ eol ++ joinLines eol more
  end.

(** *** Group accounting *)

(** The channel's group title is the name of one of the groups. *)
Definition listed (gs : list Group.t) (c : Channel.t) : bool :=
  existsb (eqb (Channel.groupTitle c)) (map Group.name gs).

(** The sum of [channelCount] over the groups. *)
Definition totalCount (gs : list Group.t) : nat :=
  fold_right (fun g n => (Group.channelCount g + n)%nat) 0%nat gs.

End Reference.

(* ===================================================================== *)
(** ** Case analysis and invariants of the scan *)
(* ===================================================================== *)

Module Invariants.

Import M3u Reference.

Section Scan.

Variable toLowerCase : jsstring -> jsstring.

(** The four cases of one iteration, by the kind of the line. *)
Inductive stepCase (now : Z) (st : scan) (line : jsstring) : scan -> Prop :=
| StepExtinf :
    isExtinf line = true -> isUrl line = false ->
    blankOrOtherComment line = false ->
    stepCase now st line
      (let info := parseExtinf toLowerCase now line in
       let named := truthy_opt (Info.groupTitle info) in
       {| currentInfo := Some info;
          currentGroup :=
            if named then Info.groupTitle info else currentGroup st;
          chans := chans st;
          groupsSet :=
            if named then setAdd (or_else (Info.groupTitle info) []) (groupsSet st)
            else groupsSet st |})
| StepExtgrp :
    isExtinf line = false -> isExtgrp line = true -> isUrl line = false ->
    isComment line = true ->
    stepCase now st line
      {| currentInfo :=
           option_map (setGroupTitle (trim (substring line 8))) (currentInfo st);
         currentGroup := Some (trim (substring line 8));
         chans := chans st;
         groupsSet := setAdd (trim (substring line 8)) (groupsSet st) |}
| StepUrl info :
    isExtinf line = false -> isUrl line = true -> currentInfo st = Some info ->
    stepCase now st line
      {| currentInfo := None; currentGroup := currentGroup st;
         chans := chans st ++ [makeChannel info (currentGroup st) line];
         groupsSet := groupsSet st |}
| StepDropped :
    isExtinf line = false -> isUrl line = true -> currentInfo st = None ->
    stepCase now st line st
| StepSkipped :
    isExtinf line = false -> isUrl line = false ->
    blankOrOtherComment line = true ->
    stepCase now st line st.

(** The invariant of the scan: the set holds no name twice, it holds the
    carried group, the non-empty group of the pending descriptor, and the
    title of every channel that did not fall back to the sentinel. *)
Definition accounted (st : scan) : Prop :=
  NoDup (groupsSet st)
  /\ (forall g, currentGroup st = Some g -> In g (groupsSet st))
  /\ (forall info g,
        currentInfo st = Some info -> Info.groupTitle info = Some g ->
        truthy g = true -> In g (groupsSet st))
  /\ (forall c,
        In c (chans st) ->
        In (Channel.groupTitle c) (groupsSet st)
        \/ Channel.groupTitle c = lit "Uncategorized").

(** The explicit channel-identifier attribute of a metadata line: the
    capture of the [tvg-id] pattern in the text after the duration. *)
Definition tvgIdAttribute (line : jsstring) : nullable :=
  match regexSearch extinfPattern line with
  | Some (_, rest) => regexSearch (attrPattern (lit "tvg-id")) rest
  | None => None
  end.

(** The metadata line has a numeric duration: the expression of
    [parseExtinf] matches it. *)
Definition hasDuration (line : jsstring) : bool :=
  match regexSearch extinfPattern line with
  | Some _ => true
  | None => false
  end.

(** The channel [c] was finalised from the descriptor of the metadata line
    [line], parsed when the clock read [now]. *)
Definition stemsFrom (now : Z) (line : jsstring) (c : Channel.t) : Prop :=
  isExtinf line = true
  /\ Channel.tvgId c = Info.tvgId (parseExtinf toLowerCase now line)
  /\ Channel.name c = Info.name (parseExtinf toLowerCase now line)
  /\ Channel.id c =
     or_else (Channel.tvgId c)
       (generateStableId (Channel.name c) (Some (Channel.groupTitle c))).


(** The metadata line of a channel: in the text [all], [line] is a metadata
    line at index [i], the URL line [url] of the channel stands at index
    [j] after it, and no metadata line and no URL line stands between the
    two, so that [line] is the last metadata line before the URL line and
    no other URL line has used it up. *)
Definition ownLine (all : list jsstring) (i j : nat) (line url : jsstring)
  : Prop :=
  nth_error all i = Some line
  /\ isExtinf line = true
  /\ (i < j)%nat
  /\ nth_error all j = Some url
  /\ isUrl url = true
  /\ forall k l, (i < k < j)%nat -> nth_error all k = Some l ->
                 isExtinf l = false /\ isUrl l = false.

(** The rule that gives the channel [c] of the text [content] its [id]:
    [c] has its own metadata line, the last one before its URL line, and
    carries the [tvgId] and the [name] of the descriptor [parseExtinf]
    returns for that line; if that line has a numeric duration and a
    non-empty [tvg-id] attribute, the [id] is the attribute; if it has a
    numeric duration, no such attribute and a non-empty name, the [id] is
    the lower-cased name with each run of white space replaced by an
    underscore; if it has no numeric duration, the channel has no name and
    the [id] is the stable hash of the absent name and the group title. *)
Definition identified (clock : nat -> Z) (content : jsstring) (c : Channel.t)
  : Prop :=
  exists i j line,
    ownLine (linesOf content) i j line (Channel.url c)
    /\ Channel.tvgId c = Info.tvgId (parseExtinf toLowerCase (clock i) line)
    /\ Channel.name c = Info.name (parseExtinf toLowerCase (clock i) line)
    /\ (hasDuration line = true ->
        truthy_opt (tvgIdAttribute line) = true ->
        Some (Channel.id c) = tvgIdAttribute line)
    /\ (hasDuration line = true ->
        truthy_opt (tvgIdAttribute line) = false ->
        forall name, Channel.name c = Some name -> truthy name = true ->
        Channel.id c = replaceSpaceRuns false (toLowerCase name))
    /\ (hasDuration line = false ->
        Channel.name c = None
        /\ Channel.id c = generateStableId None (Some (Channel.groupTitle c))).

(** After the lines before index [n]: every channel stems from its own
    metadata line, and the pending descriptor stems from the last metadata
    line, after which no URL line has come yet. *)
Definition placed (clock : nat -> Z) (all : list jsstring) (n : nat)
  (st : scan) : Prop :=
  (forall c, In c (chans st) ->
     exists i j line,
       ownLine all i j line (Channel.url c) /\ stemsFrom (clock i) line c)
  /\ (forall info, currentInfo st = Some info ->
       exists i line,
         nth_error all i = Some line /\ isExtinf line = true
         /\ (i < n)%nat
         /\ (forall k l, (i < k < n)%nat -> nth_error all k = Some l ->
                         isExtinf l = false /\ isUrl l = false)
         /\ Info.tvgId info = Info.tvgId (parseExtinf toLowerCase (clock i) line)
         /\ Info.name info = Info.name (parseExtinf toLowerCase (clock i) line)).


End Scan.

End Invariants.

(* ===================================================================== *)
(** ** Sample inputs *)
(* ===================================================================== *)

Module Samples.

Import M3u Epg.

(** A clock that stands still at the given reading. *)
Definition fixedClock (ms : Z) : nat -> Z := fun _ => ms.

(** A title given twice: first without a language tag, then in English. *)
Definition untaggedThenEnglish : list node :=
  [Text (lit "Hola");
   Element (Some (lit "en")) (Some (lit "Hello")) None].

(** A programme of channel [id] from [start] to [stop], titled [title]. *)
Definition broadcast (id : string) (start stop : Z) (title : string) : programme :=
  {| channelId := lit id; start := start; stop := stop;
     title := Some (lit title); subtitle := None; description := None |}.

(** Three programmes of channel [one]. *)
Definition early : programme := broadcast "one" 100 200 "Early".
Definition midday : programme := broadcast "one" 200 300 "Midday".
Definition late : programme := broadcast "one" 300 400 "Late".

(** A guide of two channels, out of order. *)
Definition guide : list programme :=
  [broadcast "one" 300 400 "Late"; broadcast "two" 100 200 "Other";
   broadcast "one" 100 200 "Early"; broadcast "one" 200 300 "Midday"].

(** The lines of a playlist with a group override. *)
Definition overrideLines : list jsstring :=
  [lit "#EXTM3U";
   lit "#EXTINF:-1 group-title=" ++ quoted "News" ++ lit ",Channel A";
   lit "#EXTGRP:Sports";
   lit "http://a";
   []].

(** A playlist whose header comes after a blank line. *)
Definition headerAfterBlank : jsstring :=
  text [EmptyString; "#EXTM3U"; "#EXTINF:-1,Channel A"; "http://a"]%string.

(** A playlist with a player-option directive between the metadata line and
    the URL line. *)
Definition withOptionLine : jsstring :=
  text ["#EXTM3U"; "#EXTINF:-1,Channel A"; "#EXTVLCOPT:network-caching=1000";
        "http://a"]%string.

(** A playlist with one entry that names no group. *)
Definition ungrouped : jsstring :=
  text ["#EXTM3U"; "#EXTINF:-1,Channel A"; "http://a"]%string.

(** A playlist with one entry that has neither identifier nor name. *)
Definition nameless : jsstring :=
  text ["#EXTM3U"; "#EXTINF:-1,"; "http://a"]%string.


(** The end-to-end scenario of the specification: two channels of one
    group. *)
Definition twoNews : jsstring :=
  lit "#EXTM3U" ++ 10%N ::
  lit "#EXTINF:-1 group-title=" ++ quoted "News" ++ lit ",Channel A" ++ 10%N ::
  lit "http://a" ++ 10%N ::
  lit "#EXTINF:-1 group-title=" ++ quoted "News" ++ lit ",Channel B" ++ 10%N ::
  lit "http://b" ++ [10%N].

(** A playlist with an explicit identifier on one entry and none on the
    other. *)
Definition withTvgId : jsstring :=
  lit "#EXTM3U" ++ 10%N ::
  lit "#EXTINF:-1 tvg-id=" ++ quoted "bbc1" ++ lit " group-title="
    ++ quoted "News" ++ lit ",BBC One" ++ 10%N ::
  lit "http://a" ++ 10%N ::
  lit "#EXTINF:-1,Channel  B" ++ 10%N ::
  lit "http://b".

End Samples.

(* ===================================================================== *)
(** * Properties *)
(* ===================================================================== *)

Import M3u Epg Reference Invariants Samples.

(** ** The stable hash *)

Lemma ToInt32_mod (z : Z) : ToInt32 z mod 4294967296 = z mod 4294967296.
Proof.
  unfold ToInt32.
  pose proof (Z.mod_pos_bound z 4294967296 ltac:(lia)) as Hb.
  destruct (2147483648 <=? z mod 4294967296).
  - replace (z mod 4294967296 - 4294967296)
      with (z mod 4294967296 + (-1) * 4294967296) by lia.
    rewrite Z.mod_add by lia. apply Z.mod_mod. lia.
  - apply Z.mod_mod. lia.
Qed.

Lemma ToInt32_congr (a b : Z) :
  a mod 4294967296 = b mod 4294967296 -> ToInt32 a = ToInt32 b.
Proof. unfold ToInt32. now intros ->. Qed.

(** The program's step, with its intermediate [ToInt32] of the shift and its
    [hash & hash], is the rolling step of the specification. *)
Lemma hashStep_rolling (hash : Z) (char : N) :
  hashStep hash char = rollingStep hash char.
Proof.
  unfold hashStep, rollingStep, band, shl.
  rewrite Z.land_diag.
  apply ToInt32_congr.
  change (5 mod 32) with 5.
  rewrite !Z.shiftl_mul_pow2 by lia.
  change (2 ^ 5) with 32.
  rewrite <- (Z.add_mod_idemp_l (_ - hash)) by lia.
  rewrite <- (Zminus_mod_idemp_l (ToInt32 _)).
  rewrite ToInt32_mod.
  rewrite <- (Z.mul_mod_idemp_l (ToInt32 hash)) by lia.
  rewrite ToInt32_mod.
  rewrite Z.mul_mod_idemp_l by lia.
  rewrite Zminus_mod_idemp_l.
  rewrite Z.add_mod_idemp_l by lia.
  reflexivity.
Qed.

Lemma fold_hashStep (str : jsstring) (h : Z) :
  fold_left hashStep str h = fold_left rollingStep str h.
Proof.
  revert h. induction str as [|c str IH]; intros h; simpl; [reflexivity|].
  now rewrite hashStep_rolling, IH.
Qed.

Lemma or_else_defaulted (x : nullable) :
  or_else x (lit "unknown") = defaulted isAbsentOrEmpty x.
Proof. destruct x as [[|c s]|]; reflexivity. Qed.

(** The extreme of the hash: the absolute value of the least 32-bit integer
    is not truncated, and is rendered with six digits. *)
Example toStringRadix_extreme :
  toStringRadix 36 (Z.abs (ToInt32 2147483648)) = lit "zik0zk".
Proof. reflexivity. Qed.

Example generateStableId_sample :
  generateStableId (Some (lit "Channel A")) (Some (lit "News"))
  = lit "m3u_hlp27d".
Proof. reflexivity. Qed.

(** C9, as stated, fails: an empty name is present, yet the program replaces
    it by [unknown] like an absent one, so the identifier differs from the
    reference that only defaults absent inputs. *)
Lemma generateStableId_empty_name_differs :
  generateStableId (Some []) (Some (lit "News"))
  <> stableHash isAbsent (Some []) (Some (lit "News")).
Proof. vm_compute. discriminate. Qed.

(** C9, amended: for every pair of possibly absent name and group title,
    [generateStableId] equals the reference definition in which an input
    that is absent or empty is replaced by the literal [unknown]: the two
    are joined with a colon, the rolling hash
    [hash = (hash << 5) - hash + charCode], truncated to signed 32 bits at
    each step, is folded from 0, and its absolute value in base 36 follows
    the tag [m3u_]. *)
Theorem generateStableId_reference (name group : nullable) :
  generateStableId name group = stableHash isAbsentOrEmpty name group.
Proof.
  unfold generateStableId, stableHash.
  now rewrite fold_hashStep, !or_else_defaulted.
Qed.

(** ** Strings and lines *)

Lemma eqb_eq (a b : jsstring) : eqb a b = true <-> a = b.
Proof.
  revert b. induction a as [|x a IH]; intros [|y b]; simpl;
    try (split; [discriminate|discriminate]); [tauto|].
  rewrite andb_true_iff, N.eqb_eq, IH.
  split; [intros [-> ->]; reflexivity | intros [= -> ->]; auto].
Qed.

Lemma eqb_refl (a : jsstring) : eqb a a = true.
Proof. now apply eqb_eq. Qed.

Lemma eqb_neq (a b : jsstring) : eqb a b = false <-> a <> b.
Proof.
  rewrite <- eqb_eq. destruct (eqb a b); split; congruence.
Qed.

Lemma startsWith_spec (p s : jsstring) :
  startsWith p s = true <-> exists r, s = p ++ r.
Proof.
  revert s. induction p as [|x p IH]; intros s; simpl.
  - split; [intros _; now exists s | reflexivity].
  - destruct s as [|y s].
    + split; [discriminate | intros [r [=]]].
    + rewrite andb_true_iff, N.eqb_eq, IH. split.
      * intros [-> [r ->]]. now exists r.
      * intros [r [= -> ->]]. split; [reflexivity | now exists r].
Qed.

(** A metadata or group line is a non-empty comment line. *)
Lemma comment_prefix (p line : jsstring) :
  startsWith (35%N :: p) line = true ->
  isComment line = true /\ truthy line = true.
Proof.
  destruct line as [|c line]; simpl; [discriminate|].
  unfold isComment. simpl. rewrite andb_true_iff.
  intros [-> _]. auto.
Qed.

Lemma split_first (s : jsstring) :
  hd_error (split 10 s) = Some (fst (span (fun c => negb (N.eqb c 10)) s)).
Proof.
  induction s as [|c s IH]; simpl; [reflexivity|].
  destruct (N.eqb c 10); simpl; [reflexivity|].
  destruct (split 10 s) as [|h r]; [discriminate|].
  simpl in IH. injection IH as ->.
  now destruct (span _ s).
Qed.

Lemma linesOf_first (content : jsstring) :
  exists more, linesOf content = firstLine content :: more.
Proof.
  unfold linesOf, firstLine.
  pose proof (split_first content) as H.
  destruct (split 10 content) as [|h r]; [discriminate|].
  injection H as ->. now eexists.
Qed.

(** ** The scan of [parse] *)

Section Scan.

Variable toLowerCase : jsstring -> jsstring.
Variable clock : nat -> Z.

#[local] Abbreviation step := (step toLowerCase).
#[local] Abbreviation scanLines := (scanLines toLowerCase clock).
#[local] Abbreviation parse := (parse toLowerCase clock).

(** What [parse] does once the header is accepted. *)
Lemma parse_accepts (content : jsstring) :
  firstLineHasMarker content = true ->
  parse content =
  Return (let st := scanLines 1%nat (tl (linesOf content)) initial in
          {| channels := chans st;
             groups := makeGroups (chans st) 0 (groupsSet st) |}).
Proof.
  unfold firstLineHasMarker, M3u.parse.
  destruct (linesOf_first content) as [more ->]. simpl.
  intros H. rewrite H.
  destruct (firstLine content); [discriminate|reflexivity].
Qed.

Lemma parse_rejects (content : jsstring) :
  firstLineHasMarker content = false ->
  parse content = Throw (lit "Invalid M3U format: missing #EXTM3U header").
Proof.
  unfold firstLineHasMarker, M3u.parse.
  destruct (linesOf_first content) as [more ->]. simpl.
  intros ->. now rewrite orb_true_r.
Qed.

Lemma step_cases (now : Z) (st : scan) (line : jsstring) :
  stepCase toLowerCase now st line (step now st line).
Proof.
  destruct (isExtinf line) eqn:Ei.
  - pose proof (comment_prefix _ _ Ei) as [Hc Ht].
    assert (Hu : isUrl line = false) by (unfold isUrl; now rewrite Hc, Ht).
    assert (Hs : blankOrOtherComment line = false).
    { unfold blankOrOtherComment, isBlank. now rewrite Ei, Ht, andb_false_r. }
    pose proof (StepExtinf toLowerCase now st line Ei Hu Hs) as H. cbv zeta in H.
    unfold M3u.step. fold (isExtinf line). rewrite Ei.
    now destruct (truthy_opt _).
  - destruct (isExtgrp line) eqn:Eg.
    + pose proof (comment_prefix _ _ Eg) as [Hc Ht].
      unfold M3u.step. fold (isExtinf line) (isExtgrp line). rewrite Ei, Eg.
      apply StepExtgrp; auto. unfold isUrl. now rewrite Hc, Ht.
    + unfold M3u.step. fold (isExtinf line) (isExtgrp line). rewrite Ei, Eg.
      fold (isComment line). fold (isUrl line).
      destruct (isUrl line) eqn:Eu.
      * destruct (currentInfo st) as [info|] eqn:Ec.
        -- now apply (StepUrl _ _ _ _ info).
        -- now apply StepDropped.
      * apply StepSkipped; auto.
        unfold blankOrOtherComment, isBlank. rewrite Ei.
        unfold isUrl in Eu. destruct (truthy line); simpl in *; [|reflexivity].
        destruct (isComment line); [reflexivity|discriminate].
Qed.

(** The number of channels after a scan: those before it, the entries the
    lines complete, and the pending descriptor if the lines complete it. *)
Lemma scanLines_count (lines : list jsstring) (i : nat) (st : scan) :
  List.length (chans (scanLines i lines st)) =
  (List.length (chans st) + entries blankOrOtherComment lines
   + match currentInfo st with
     | Some _ => if followedByUrl blankOrOtherComment lines then 1 else 0
     | None => 0
     end)%nat.
Proof.
  revert i st. induction lines as [|line more IH]; intros i st; simpl.
  - destruct (currentInfo st); lia.
  - rewrite IH.
    destruct (step_cases (clock i) st line) as [Ei Eu Es|Ei Eg Eu Ec|info Ei Eu Ec|Ei Eu Ec|Ei Eu Es].
    + simpl. rewrite Ei, Eu, Es. simpl.
      destruct (followedByUrl _ more), (currentInfo st); lia.
    + simpl. rewrite Ei, Eu. simpl.
      assert (blankOrOtherComment line = true) as ->.
      { unfold blankOrOtherComment. rewrite Ec, Ei. apply orb_true_r. }
      destruct (currentInfo st); simpl; lia.
    + simpl. rewrite Ei, Eu, Ec, length_app. simpl. lia.
    + rewrite Ei, Eu, Ec. simpl. lia.
    + rewrite Ei, Eu, Es. simpl. lia.
Qed.

(** A scan that meets no metadata line and starts with no pending
    descriptor emits nothing: its URL lines are dropped. *)
Lemma scanLines_no_extinf (lines : list jsstring) (i : nat) (st : scan) :
  currentInfo st = None ->
  (forall line, In line lines -> isExtinf line = false) ->
  chans (scanLines i lines st) = chans st.
Proof.
  revert i st. induction lines as [|line more IH]; intros i st Hc Hl; simpl;
    [reflexivity|].
  assert (Hs : currentInfo (step (clock i) st line) = None
               /\ chans (step (clock i) st line) = chans st).
  { destruct (step_cases (clock i) st line) as [Ei Eu Es|Ei Eg Eu Ec'|info Ei Eu Ec|Ei Eu Ec|Ei Eu Es];
      simpl; auto.
    - rewrite Hl in Ei by now left. discriminate.
    - now rewrite Hc.
    - congruence. }
  destruct Hs as [Hn Hch].
  rewrite IH; [assumption|assumption|]. intros l Hl'. apply Hl. now right.
Qed.

End Scan.

(** ** The header check and dropped URL lines *)

(** C5, as stated, fails: the first non-empty line of this text is the
    header marker, and [parse] throws all the same, because the line it
    tests is the first one, which is blank. *)
Lemma parse_rejects_header_after_blank :
  firstNonEmptyHasMarker headerAfterBlank = true
  /\ parse asciiLower (fixedClock 0) headerAfterBlank
     = Throw (lit "Invalid M3U format: missing #EXTM3U header").
Proof. split; reflexivity. Qed.

(** C5, amended: [parse] throws exactly when the first line of the input,
    trimmed, does not begin with the header marker [#EXTM3U] (an empty first
    line included), and returns otherwise, so this is the only condition
    under which it throws; a URL line met while no metadata line is pending
    leaves the scan as it was, and a text without metadata lines yields no
    channel. *)
Theorem parse_throws_iff_first_line
  (toLowerCase : jsstring -> jsstring) (clock : nat -> Z) (content : jsstring) :
  ((exists msg, parse toLowerCase clock content = Throw msg)
   <-> firstLineHasMarker content = false)
  /\ ((exists r, parse toLowerCase clock content = Return r)
      <-> firstLineHasMarker content = true)
  /\ (forall now st line,
        currentInfo st = None -> isUrl line = true ->
        step toLowerCase now st line = st)
  /\ (forall r,
        parse toLowerCase clock content = Return r ->
        (forall line, In line (tl (linesOf content)) -> isExtinf line = false) ->
        channels r = []).
Proof.
  repeat split.
  - intros [msg H]. destruct (firstLineHasMarker content) eqn:E; [|reflexivity].
    rewrite parse_accepts in H by assumption. discriminate.
  - intros E. rewrite parse_rejects by assumption. now eexists.
  - intros [r H]. destruct (firstLineHasMarker content) eqn:E; [reflexivity|].
    rewrite parse_rejects in H by assumption. discriminate.
  - intros E. rewrite parse_accepts by assumption. now eexists.
  - intros now st line Hc Hu.
    destruct (step_cases toLowerCase now st line); congruence.
  - intros r H Hl. destruct (firstLineHasMarker content) eqn:E.
    + rewrite parse_accepts in H by assumption. injection H as <-. simpl.
      now rewrite scanLines_no_extinf.
    + rewrite parse_rejects in H by assumption. discriminate.
Qed.

(** ** The number of channels *)

(** C6, as stated, fails: here the metadata line is followed by a directive
    line that is neither blank nor a group override, so the count of the
    specification is 0, and the program emits one channel. *)
Lemma parse_counts_across_directive :
  exists r,
    parse asciiLower (fixedClock 0) withOptionLine = Return r
    /\ List.length (channels r) = 1%nat
    /\ entries blankOrGroup (linesOf withOptionLine) = 0%nat.
Proof. eexists. repeat split. Qed.

(** C6, amended: for every playlist text accepted by [parse], the number of
    channels emitted equals the number of metadata lines ([#EXTINF:]) that
    are followed by a URL line when blank lines and every comment or
    directive line other than a metadata line (group overrides included)
    are skipped. *)
Theorem parse_channel_count
  (toLowerCase : jsstring -> jsstring) (clock : nat -> Z) (content : jsstring)
  (r : playlist) :
  parse toLowerCase clock content = Return r ->
  List.length (channels r) = entries blankOrOtherComment (linesOf content).
Proof.
  intros H. destruct (firstLineHasMarker content) eqn:E.
  - rewrite parse_accepts in H by assumption. injection H as <-. simpl.
    rewrite scanLines_count. simpl.
    unfold firstLineHasMarker in E.
    destruct (linesOf_first content) as [more ->]. simpl.
    apply startsWith_spec in E as [rest ->]. simpl. lia.
  - rewrite parse_rejects in H by assumption. discriminate.
Qed.

Lemma parse_channel_count_witness :
  exists r,
    parse asciiLower (fixedClock 0) twoNews = Return r
    /\ List.length (channels r) = entries blankOrOtherComment (linesOf twoNews).
Proof.
  eexists. split; [reflexivity|].
  apply (parse_channel_count asciiLower (fixedClock 0) twoNews). reflexivity.
Defined.

(** ** Group accounting *)

Lemma existsb_eqb_In (g : jsstring) (set : list jsstring) :
  existsb (eqb g) set = true <-> In g set.
Proof.
  rewrite existsb_exists. split.
  - intros [x [Hin Hx]]. apply eqb_eq in Hx. now subst.
  - intros H. exists g. split; [assumption|apply eqb_refl].
Qed.

Lemma setAdd_In (g x : jsstring) (set : list jsstring) :
  In x (setAdd g set) <-> x = g \/ In x set.
Proof.
  unfold setAdd. destruct (existsb (eqb g) set) eqn:E.
  - apply existsb_eqb_In in E. split; [auto|]. intros [->|H]; assumption.
  - rewrite in_app_iff. simpl. intuition.
Qed.

Lemma setAdd_NoDup (g : jsstring) (set : list jsstring) :
  NoDup set -> NoDup (setAdd g set).
Proof.
  intros H. unfold setAdd. destruct (existsb (eqb g) set) eqn:E; [assumption|].
  assert (Hn : ~ In g set).
  { intros Hin. apply existsb_eqb_In in Hin. congruence. }
  clear E. induction H as [|x l Hx Hl IH]; simpl.
  - constructor; [intros []|constructor].
  - constructor.
    + rewrite in_app_iff. simpl. intros [H|[H|[]]]; [auto|]. subst.
      apply Hn. now left.
    + apply IH. intros Hin. apply Hn. now right.
Qed.

Lemma makeGroups_names (cs : list Channel.t) (names : list jsstring) (i : nat) :
  map Group.name (makeGroups cs i names) = names.
Proof.
  revert i. induction names as [|n names IH]; intros i; simpl;
    [reflexivity|now rewrite IH].
Qed.

Lemma totalCount_makeGroups (cs : list Channel.t) (names : list jsstring) (i : nat) :
  totalCount (makeGroups cs i names) = list_sum (map (countIn cs) names).
Proof.
  revert i. induction names as [|n names IH]; intros i; simpl;
    [reflexivity|now rewrite IH].
Qed.

(** Among names without repetition, a title is counted once if it occurs
    and not at all otherwise. *)
Lemma count_title (g : jsstring) (names : list jsstring) :
  NoDup names ->
  list_sum (map (fun n => if eqb g n then 1 else 0)%nat names)
  = if existsb (eqb g) names then 1%nat else 0%nat.
Proof.
  induction 1 as [|n names Hn Hd IH]; simpl; [reflexivity|].
  rewrite IH. destruct (eqb g n) eqn:E; simpl; [|reflexivity].
  apply eqb_eq in E. subst n.
  destruct (existsb (eqb g) names) eqn:E'; [|reflexivity].
  apply existsb_eqb_In in E'. contradiction.
Qed.

Lemma list_sum_map_add {A : Type} (f g : A -> nat) (l : list A) :
  list_sum (map (fun x => (f x + g x)%nat) l)
  = (list_sum (map f l) + list_sum (map g l))%nat.
Proof. induction l as [|x l IH]; simpl; [reflexivity|]. rewrite IH. lia. Qed.

(** The counts of groups with distinct names add up to the number of
    channels whose title is one of the names. *)
Lemma count_sum (cs : list Channel.t) (names : list jsstring) :
  NoDup names ->
  list_sum (map (countIn cs) names)
  = List.length (filter (fun c => existsb (eqb (Channel.groupTitle c)) names) cs).
Proof.
  intros Hd. induction cs as [|c cs IH]; simpl.
  - unfold countIn. simpl. induction names; simpl; [reflexivity|].
    apply IHnames. now inversion Hd.
  - transitivity
      (list_sum (map (fun n => ((if eqb (Channel.groupTitle c) n then 1 else 0)
                                + countIn cs n)%nat) names)).
    + f_equal. apply map_ext. intros n. unfold countIn. simpl.
      now destruct (eqb (Channel.groupTitle c) n).
    + rewrite list_sum_map_add, IH, count_title by assumption.
      now destruct (existsb _ names).
Qed.

Section Groups.

Variable toLowerCase : jsstring -> jsstring.
Variable clock : nat -> Z.

Lemma accounted_initial : accounted initial.
Proof.
  repeat split; simpl; try discriminate; [constructor|intros c []].
Qed.

Lemma accounted_step (now : Z) (st : scan) (line : jsstring) :
  accounted st -> accounted (step toLowerCase now st line).
Proof.
  intros (Hd & Hg & Hi & Hc).
  destruct (step_cases toLowerCase now st line)
    as [Ei Eu Es|Ei Eg Eu Ec|info Ei Eu Ec|Ei Eu Ec|Ei Eu Es];
    try (repeat split; assumption).
  - cbv zeta.
    destruct (Info.groupTitle (parseExtinf toLowerCase now line)) as [g|] eqn:Eg;
      simpl.
    + destruct (truthy g) eqn:Et; simpl.
      * repeat split; simpl.
        -- now apply setAdd_NoDup.
        -- intros g' [= <-]. apply setAdd_In. now left.
        -- intros info g' [= <-] Hg' _. rewrite Eg in Hg'. injection Hg' as <-.
           apply setAdd_In. now left.
        -- intros c Hin. destruct (Hc c Hin) as [H|H]; [left|now right].
           apply setAdd_In. now right.
      * repeat split; simpl; try assumption.
        intros info g' [= <-] Hg' Ht. rewrite Eg in Hg'. injection Hg' as <-.
        congruence.
    + repeat split; simpl; try assumption.
      intros info g' [= <-] Hg'. congruence.
  - repeat split; simpl.
    + now apply setAdd_NoDup.
    + intros g [= <-]. apply setAdd_In. now left.
    + intros info g Hinfo Hgt _. destruct (currentInfo st) as [info0|];
        [|discriminate]. simpl in Hinfo. injection Hinfo as <-.
      simpl in Hgt. injection Hgt as <-. apply setAdd_In. now left.
    + intros c Hin. destruct (Hc c Hin) as [H|H]; [left|now right].
      apply setAdd_In. now right.
  - repeat split; simpl; try assumption; try discriminate.
    intros c Hin. apply in_app_or in Hin as [Hin|[<-|[]]]; [now apply Hc|].
    simpl. unfold or_opt.
    destruct (Info.groupTitle info) as [g|] eqn:Eg; simpl.
    + destruct (truthy g) eqn:Et; simpl.
      * rewrite Et. left. now apply (Hi info).
      * destruct (currentGroup st) as [g'|] eqn:Eg'; [|now right].
        simpl. destruct (truthy g') eqn:Et'; [|now right].
        left. now apply Hg.
    + destruct (currentGroup st) as [g'|] eqn:Eg'; [|now right].
      simpl. destruct (truthy g') eqn:Et'; [|now right].
      left. now apply Hg.
Qed.

Lemma accounted_scan (lines : list jsstring) (i : nat) (st : scan) :
  accounted st -> accounted (scanLines toLowerCase clock i lines st).
Proof.
  revert i st. induction lines as [|line more IH]; intros i st H; simpl;
    [assumption|]. apply IH. now apply accounted_step.
Qed.

(** What holds of the groups of every accepted playlist: no name is listed
    twice, the counts add up to the number of channels whose title is
    listed, and a channel whose title is not listed carries the sentinel. *)
Lemma group_accounting (content : jsstring) (r : playlist) :
  parse toLowerCase clock content = Return r ->
  NoDup (map Group.name (groups r))
  /\ totalCount (groups r)
     = List.length (filter (listed (groups r)) (channels r))
  /\ (forall c, In c (channels r) -> listed (groups r) c = false ->
        Channel.groupTitle c = lit "Uncategorized").
Proof.
  intros H. destruct (firstLineHasMarker content) eqn:E.
  - rewrite parse_accepts in H by assumption. injection H as <-. cbv zeta.
    destruct (accounted_scan (tl (linesOf content)) 1 initial accounted_initial)
      as (Hd & _ & _ & Hc).
    unfold listed. simpl. rewrite makeGroups_names. repeat split.
    + assumption.
    + rewrite totalCount_makeGroups. now apply count_sum.
    + intros c Hin Hl. destruct (Hc c Hin) as [Hg|Hg]; [|assumption].
      apply existsb_eqb_In in Hg. congruence.
  - rewrite parse_rejects in H by assumption. discriminate.
Qed.

End Groups.

(** C1: the sum of [channelCount] is claimed to equal the number of
    channels. On a playlist whose only entry names no group the program
    emits one channel, titled with the sentinel, and no group at all: the
    sum is 0 and the number of channels is 1. *)
Theorem parse_ungrouped_channel_not_counted :
  exists r,
    parse asciiLower (fixedClock 0) ungrouped = Return r
    /\ List.length (channels r) = 1%nat
    /\ map Channel.groupTitle (channels r) = [lit "Uncategorized"]
    /\ groups r = []
    /\ totalCount (groups r) = 0%nat.
Proof. eexists. repeat split. Qed.

(** The end-to-end scenario of the specification: two channels titled
    [News] and one group [News] that counts both. *)
Example parse_two_news :
  exists r,
    parse asciiLower (fixedClock 0) twoNews = Return r
    /\ map Channel.groupTitle (channels r) = [lit "News"; lit "News"]
    /\ map Group.name (groups r) = [lit "News"]
    /\ map Group.channelCount (groups r) = [2%nat].
Proof. eexists. repeat split. Qed.

(** ** Identifiers *)

Section Identifiers.

Variable toLowerCase : jsstring -> jsstring.

(** The descriptor of a line the expression does not match: every field at
    its initial value. *)
Lemma parseExtinf_no_duration (now : Z) (line : jsstring) :
  hasDuration line = false ->
  Info.tvgId (parseExtinf toLowerCase now line) = None
  /\ Info.name (parseExtinf toLowerCase now line) = None.
Proof.
  unfold hasDuration, parseExtinf.
  destruct (regexSearch extinfPattern line) as [[number rest]|];
    [discriminate|auto].
Qed.

(** The descriptor of a line the expression matches: the name is a string,
    and the identifier is the attribute when it is present and non-empty,
    and is made from the name or from the clock otherwise. *)
Lemma parseExtinf_duration (now : Z) (line : jsstring) :
  hasDuration line = true ->
  exists name,
    Info.name (parseExtinf toLowerCase now line) = Some name
    /\ Info.tvgId (parseExtinf toLowerCase now line) =
       if truthy_opt (tvgIdAttribute line) then tvgIdAttribute line
       else Some (if truthy name
                  then replaceSpaceRuns false (toLowerCase name)
                  else lit "channel_" ++ toStringRadix 10 now).
Proof.
  unfold hasDuration, tvgIdAttribute, parseExtinf.
  destruct (regexSearch extinfPattern line) as [[number rest]|];
    [|discriminate].
  intros _. eexists. split; reflexivity.
Qed.

Lemma replaceSpaceRuns_nonempty (s : jsstring) :
  truthy s = true -> truthy (replaceSpaceRuns false s) = true.
Proof.
  destruct s as [|c s]; [discriminate|]. simpl.
  now destruct (isWhiteSpace c).
Qed.

Lemma truthy_neq (s : jsstring) : truthy s = true <-> s <> [].
Proof. destruct s; simpl; split; congruence. Qed.


Variable clock : nat -> Z.




End Identifiers.

Section Placement.

Variable toLowerCase : jsstring -> jsstring.
Variable clock : nat -> Z.

Lemma between_extend (all : list jsstring) (i n : nat) (line : jsstring) :
  (forall k l, (i < k < n)%nat -> nth_error all k = Some l ->
               isExtinf l = false /\ isUrl l = false) ->
  nth_error all n = Some line ->
  isExtinf line = false -> isUrl line = false ->
  forall k l, (i < k < S n)%nat -> nth_error all k = Some l ->
              isExtinf l = false /\ isUrl l = false.
Proof.
  intros Hb Hn Hi Hu k l Hk Hl.
  destruct (Nat.eq_dec k n) as [->|Hne].
  - rewrite Hn in Hl. injection Hl as <-. auto.
  - apply (Hb k l); [lia|assumption].
Qed.

Lemma placed_step (all : list jsstring) (n : nat) (st : scan) (line : jsstring) :
  nth_error all n = Some line ->
  placed toLowerCase clock all n st ->
  placed toLowerCase clock all (S n) (step toLowerCase (clock n) st line).
Proof.
  intros Hn [Hc Hp].
  destruct (step_cases toLowerCase (clock n) st line)
    as [Ei Eu Es|Ei Eg Eu Ec|info Ei Eu Ec|Ei Eu Ec|Ei Eu Es].
  - split; [exact Hc|]. cbv zeta. simpl. intros info [= <-].
    exists n, line. split; [assumption|]. split; [assumption|].
    split; [lia|]. split; [intros k l Hk; lia|]. split; reflexivity.
  - split; [exact Hc|]. simpl. intros info Hinfo.
    destruct (currentInfo st) as [info0|]; [|discriminate].
    simpl in Hinfo. injection Hinfo as <-.
    destruct (Hp info0 eq_refl) as (i & l0 & Hi & Hl0 & Hlt & Hb & Hid & Hname).
    exists i, l0. split; [assumption|]. split; [assumption|].
    split; [lia|]. split; [now apply (between_extend all i n line)|].
    simpl. auto.
  - split; [|simpl; discriminate]. simpl. intros c Hin.
    apply in_app_or in Hin as [Hin|[<-|[]]]; [now apply Hc|].
    destruct (Hp info Ec) as (i & l0 & Hi & Hl0 & Hlt & Hb & Hid & Hname).
    exists i, n, l0. split.
    + unfold ownLine. simpl. auto 10.
    + unfold stemsFrom. simpl. auto.
  - split; [exact Hc|]. intros info Hinfo. congruence.
  - split; [exact Hc|]. intros info Hinfo.
    destruct (Hp info Hinfo) as (i & l0 & Hi & Hl0 & Hlt & Hb & Hid & Hname).
    exists i, l0. split; [assumption|]. split; [assumption|].
    split; [lia|]. split; [now apply (between_extend all i n line)|].
    auto.
Qed.

Lemma placed_scan (all lines : list jsstring) (n : nat) (st : scan) :
  (forall k line, nth_error lines k = Some line ->
                  nth_error all (n + k) = Some line) ->
  placed toLowerCase clock all n st ->
  placed toLowerCase clock all (n + List.length lines)
    (scanLines toLowerCase clock n lines st).
Proof.
  revert n st. induction lines as [|line more IH]; intros n st Hn Hp; simpl.
  - now rewrite Nat.add_0_r.
  - replace (n + S (List.length more))%nat
      with (S n + List.length more)%nat by lia.
    apply IH.
    + intros k l Hk. replace (S n + k)%nat with (n + S k)%nat by lia.
      now apply Hn.
    + apply placed_step; [|assumption].
      rewrite <- (Nat.add_0_r n). now apply Hn.
Qed.

(** Every channel of an accepted playlist stems from its own metadata
    line. *)
Lemma parse_placed (content : jsstring) (r : playlist) (c : Channel.t) :
  parse toLowerCase clock content = Return r ->
  In c (channels r) ->
  exists i j line,
    ownLine (linesOf content) i j line (Channel.url c)
    /\ stemsFrom toLowerCase (clock i) line c.
Proof.
  intros H Hin. destruct (firstLineHasMarker content) eqn:E.
  - rewrite parse_accepts in H by assumption. injection H as <-.
    cbv zeta in Hin. simpl in Hin.
    assert (Ht : placed toLowerCase clock (linesOf content)
                   (1 + List.length (tl (linesOf content)))
                   (scanLines toLowerCase clock 1 (tl (linesOf content)) initial)).
    { apply placed_scan.
      - intros k l Hk. destruct (linesOf content); [now destruct k|exact Hk].
      - split; simpl; [intros c' []|discriminate]. }
    now apply Ht.
  - rewrite parse_rejects in H by assumption. discriminate.
Qed.

End Placement.

(** C2, as stated, fails: the metadata line of this playlist has no
    [tvg-id] attribute, and the [id] of its channel is not the stable hash
    of its name and group title but the identifier [parseExtinf] made from
    the name. *)
Lemma parse_id_is_not_the_hash :
  exists c,
    parse asciiLower (fixedClock 0) ungrouped
    = Return {| channels := [c]; groups := [] |}
    /\ tvgIdAttribute (lit "#EXTINF:-1,Channel A") = None
    /\ Channel.id c = lit "channel_a"
    /\ generateStableId (Channel.name c) (Some (Channel.groupTitle c))
       = lit "m3u_q1wdlo"
    /\ Channel.id c
       <> generateStableId (Channel.name c) (Some (Channel.groupTitle c)).
Proof. eexists. repeat split. vm_compute. discriminate. Qed.

(** C2, amended: every channel emitted by [parse] has its own metadata
    line, the last metadata line before its URL line with no other URL line
    between, and carries the [tvgId] and the [name] of the descriptor of
    that line; its [id] equals the [tvg-id] attribute of that line when the
    line has a numeric duration and the attribute is present and
    non-empty; equals the lower-cased name with white-space runs replaced
    by underscores when the line has a numeric duration, no such attribute
    and a non-empty name; and equals the stable hash of the (absent) name
    and the group title when the line has no numeric duration. *)
Theorem channel_id_rule
  (toLowerCase : jsstring -> jsstring) (clock : nat -> Z) (content : jsstring)
  (r : playlist) (c : Channel.t) :
  (forall s, s <> [] -> toLowerCase s <> []) ->
  parse toLowerCase clock content = Return r ->
  In c (channels r) ->
  identified toLowerCase clock content c.
Proof.
  intros Hlower H Hin.
  destruct (parse_placed toLowerCase clock content r c H Hin)
    as (i & j & line & Hown & Hext & Hid & Hname & Hstable).
  exists i, j, line.
  split; [assumption|]. split; [assumption|]. split; [assumption|].
  split; [|split; [|intros Hd; split]].
  - intros Hd Ha. rewrite Hstable, Hid.
    destruct (parseExtinf_duration toLowerCase (clock i) line Hd) as [name [_ ->]].
    rewrite Ha. destruct (tvgIdAttribute line) as [v|]; [|discriminate].
    simpl in *. now rewrite Ha.
  - intros Hd Ha name Hn' Ht. rewrite Hstable, Hid.
    destruct (parseExtinf_duration toLowerCase (clock i) line Hd)
      as [name' [Hname' ->]].
    rewrite Ha. rewrite Hname in Hn'. rewrite Hname' in Hn'.
    injection Hn' as ->. rewrite Ht. simpl.
    assert (Hne : truthy (replaceSpaceRuns false (toLowerCase name)) = true).
    { apply replaceSpaceRuns_nonempty, truthy_neq, Hlower, truthy_neq, Ht. }
    now rewrite Hne.
  - rewrite Hname.
    now destruct (parseExtinf_no_duration toLowerCase (clock i) line Hd).
  - rewrite Hstable, Hid, Hname.
    now destruct (parseExtinf_no_duration toLowerCase (clock i) line Hd) as [-> ->].
Qed.

Lemma asciiLower_nonempty (s : jsstring) : s <> [] -> asciiLower s <> [].
Proof. destruct s; [congruence|discriminate]. Qed.

Lemma channel_id_rule_witness :
  exists r c,
    parse asciiLower (fixedClock 0) withTvgId = Return r
    /\ In c (channels r)
    /\ Channel.id c = lit "bbc1"
    /\ identified asciiLower (fixedClock 0) withTvgId c.
Proof.
  eexists. eexists. split; [reflexivity|].
  split; [left; reflexivity|]. split; [reflexivity|].
  apply (channel_id_rule asciiLower (fixedClock 0) withTvgId _ _
           asciiLower_nonempty eq_refl).
  left. reflexivity.
Defined.




(** Where the identifiers do not depend on the clock: a metadata line that
    has no numeric duration, or a non-empty [tvg-id] attribute, or a
    non-empty name, gives the same descriptor at every reading. *)
Lemma parseExtinf_clock_free
  (toLowerCase : jsstring -> jsstring) (now1 now2 : Z) (line : jsstring) :
  hasDuration line = false
  \/ truthy_opt (tvgIdAttribute line) = true
  \/ truthy_opt (Info.name (parseExtinf toLowerCase now1 line)) = true ->
  parseExtinf toLowerCase now1 line = parseExtinf toLowerCase now2 line.
Proof.
  unfold hasDuration, tvgIdAttribute, parseExtinf.
  destruct (regexSearch extinfPattern line) as [[number rest]|];
    [|reflexivity].
  cbn [Info.name truthy_opt].
  destruct (truthy_opt (regexSearch (attrPattern (lit "tvg-id")) rest));
    [reflexivity|].
  intros [H|[H|H]]; try discriminate. now rewrite H.
Qed.

(** Two parses of a text all of whose metadata lines are of that kind give
    the same result, whatever the clock reads. *)
Lemma parse_clock_free
  (toLowerCase : jsstring -> jsstring) (clock1 clock2 : nat -> Z)
  (content : jsstring) :
  (forall line now,
     In line (linesOf content) -> isExtinf line = true ->
     hasDuration line = false
     \/ truthy_opt (tvgIdAttribute line) = true
     \/ truthy_opt (Info.name (parseExtinf toLowerCase now line)) = true) ->
  parse toLowerCase clock1 content = parse toLowerCase clock2 content.
Proof.
  intros H. unfold parse.
  destruct (linesOf content) as [|l0 lines]; [reflexivity|].
  cbn [hd_error tl].
  destruct (negb (truthy l0) || negb (startsWith (lit "#EXTM3U") l0));
    [reflexivity|].
  assert (Hs : forall ls i st,
             (forall line, In line ls -> In line (l0 :: lines)) ->
             scanLines toLowerCase clock1 i ls st
             = scanLines toLowerCase clock2 i ls st).
  { induction ls as [|line more IH]; intros i st Hin; simpl; [reflexivity|].
    assert (E : step toLowerCase (clock1 i) st line
                = step toLowerCase (clock2 i) st line).
    { unfold step. destruct (startsWith (lit "#EXTINF:") line) eqn:Ei;
        [|reflexivity].
      rewrite (parseExtinf_clock_free toLowerCase (clock1 i) (clock2 i) line);
        [reflexivity|].
      apply H; [apply Hin; now left|exact Ei]. }
    rewrite E. apply IH. intros l Hl. apply Hin. now right. }
  rewrite (Hs lines 1%nat initial); [reflexivity|].
  intros line Hl. now right.
Qed.

(** C3: two parses of the same text are claimed to give the same [id]s.
    When the entry has neither a [tvg-id] attribute nor a name, the
    identifier is made from the clock: parsed at two different readings of
    the clock, this one text gives two different [id]s. *)
Theorem parse_twice_nameless_ids_differ :
  exists c1 c2,
    parse asciiLower (fixedClock 1700000000000) nameless
    = Return {| channels := [c1]; groups := [] |}
    /\ parse asciiLower (fixedClock 1700000000001) nameless
       = Return {| channels := [c2]; groups := [] |}
    /\ Channel.id c1 = lit "channel_1700000000000"
    /\ Channel.id c2 = lit "channel_1700000000001"
    /\ Channel.id c1 <> Channel.id c2.
Proof. eexists. eexists. repeat split. vm_compute. discriminate. Qed.

(** ** Text extraction *)

(** C7, as stated, fails: the list holds an untagged entry before the
    English one; the stated order selects the English entry, the program
    returns the text of the untagged one, which it meets first. *)
Lemma extractText_prefers_first_untagged :
  extractText (Some (Items untaggedThenEnglish)) = Some (lit "Hola")
  /\ extractText (preferredInOrder untaggedThenEnglish) = Some (lit "Hello").
Proof. split; reflexivity. Qed.

Lemma find_first {A : Type} (f : A -> bool) (pre post : list A) (e : A) :
  (forall x, In x pre -> f x = false) -> f e = true ->
  find f (pre ++ e :: post) = Some e.
Proof.
  intros Hpre He. induction pre as [|x pre IH]; simpl.
  - now rewrite He.
  - rewrite (Hpre x) by now left. apply IH. intros y Hy. apply Hpre. now right.
Qed.

Lemma find_none_iff {A : Type} (f : A -> bool) (l : list A) :
  (forall x, In x l -> f x = false) -> find f l = None.
Proof.
  induction l as [|x l IH]; simpl; intros H; [reflexivity|].
  rewrite (H x) by now left. apply IH. intros y Hy. apply H. now right.
Qed.

(** C7, amended: for every list of entries, [extractText] returns the
    extraction of the first entry that is tagged as English or has no
    language tag, whichever of the two kinds comes first in the list (the
    first entry instead, when the entry found is an empty string); when no
    entry is tagged as English or untagged, it returns the extraction of
    the first entry, and [null] for the empty list. *)
Theorem extractText_list (entries : list node) :
  (forall pre e post,
     entries = pre ++ e :: post ->
     (forall x, In x pre -> isEnglish x || isUntagged x = false) ->
     isEnglish e || isUntagged e = true ->
     extractText (Some (Items entries))
     = if truthyNode e then extractText (Some e)
       else extractText (hd_error entries))
  /\ ((forall x, In x entries -> isEnglish x || isUntagged x = false) ->
      extractText (Some (Items entries)) = extractText (hd_error entries))
  /\ (entries = [] -> extractText (Some (Items entries)) = None).
Proof.
  repeat split.
  - intros pre e post -> Hpre He.
    rewrite extractText_equation_2. unfold preferred.
    rewrite (find_first _ pre post e Hpre He).
    now destruct (truthyNode e).
  - intros Hnone. rewrite extractText_equation_2. unfold preferred.
    now rewrite (find_none_iff _ entries Hnone).
  - intros ->. reflexivity.
Qed.

(** ** The schedule resolver *)

Section Resolver.

#[local] Abbreviation byStart := (fun a b : programme => start a - start b).

Lemma insert_perm (x : programme) (l : list programme) :
  Permutation (insert byStart x l) (x :: l).
Proof.
  induction l as [|y l IH]; simpl; [reflexivity|].
  destruct (start x - start y <=? 0); [reflexivity|].
  rewrite IH. apply perm_swap.
Qed.

Lemma sort_perm (l : list programme) : Permutation (sort byStart l) l.
Proof.
  induction l as [|x l IH]; simpl; [reflexivity|].
  rewrite insert_perm. now constructor.
Qed.

Lemma insert_sorted (x : programme) (l : list programme) :
  StronglySorted (fun a b => start a <= start b) l ->
  StronglySorted (fun a b => start a <= start b) (insert byStart x l).
Proof.
  induction 1 as [|y l Hs IH Hy]; simpl.
  - repeat constructor.
  - destruct (start x - start y <=? 0) eqn:E.
    + apply Z.leb_le in E. constructor; [now constructor|].
      constructor; [lia|].
      rewrite Forall_forall in *. intros z Hz. specialize (Hy z Hz). lia.
    + apply Z.leb_gt in E. constructor; [assumption|].
      rewrite Forall_forall in *. intros z Hz.
      apply (Permutation_in _ (insert_perm x l)) in Hz.
      destruct Hz as [<-|Hz]; [lia|now apply Hy].
Qed.

Lemma sort_sorted (l : list programme) :
  StronglySorted (fun a b => start a <= start b) (sort byStart l).
Proof.
  induction l as [|x l IH]; simpl; [constructor|now apply insert_sorted].
Qed.

(** Insertion puts a programme before those that start when it does. *)
Lemma insert_stable (t : Z) (x : programme) (l : list programme) :
  filter (fun p => start p =? t) (insert byStart x l)
  = filter (fun p => start p =? t) (x :: l).
Proof.
  induction l as [|y l IH]; simpl; [reflexivity|].
  destruct (start x - start y <=? 0) eqn:E; [reflexivity|].
  apply Z.leb_gt in E. simpl. rewrite IH. simpl.
  destruct (start x =? t) eqn:Ex; [|reflexivity].
  apply Z.eqb_eq in Ex.
  assert ((start y =? t) = false) as -> by (apply Z.eqb_neq; lia).
  reflexivity.
Qed.

Lemma sort_stable (t : Z) (l : list programme) :
  filter (fun p => start p =? t) (sort byStart l)
  = filter (fun p => start p =? t) l.
Proof.
  induction l as [|x l IH]; simpl; [reflexivity|].
  rewrite insert_stable. simpl. now rewrite IH.
Qed.

Lemma find_pointwise {A : Type} (f g : A -> bool) (l : list A) :
  (forall x, f x = g x) -> find f l = find g l.
Proof.
  intros H. induction l as [|x l IH]; simpl; [reflexivity|].
  now rewrite H, IH.
Qed.

Lemma slice0_firstn {A : Type} (l : list A) (n : Z) :
  0 <= n -> slice0 l n = firstn (Z.to_nat n) l.
Proof.
  intros Hn. unfold slice0.
  assert ((n <? 0) = false) as -> by (apply Z.ltb_ge; lia).
  destruct (Z.le_gt_cases n (Z.of_nat (List.length l))) as [H|H].
  - now rewrite Z.min_l.
  - rewrite Z.min_r by lia. rewrite Nat2Z.id, firstn_all.
    symmetry. apply firstn_all2. lia.
Qed.

(** Two lists in ascending order of [start] that agree, start by start, on
    the programmes they hold and on their order are the same list. *)
Lemma ascending_unique (l1 l2 : list programme) :
  StronglySorted (fun a b => start a <= start b) l1 ->
  StronglySorted (fun a b => start a <= start b) l2 ->
  (forall t, filter (fun p => start p =? t) l1
             = filter (fun p => start p =? t) l2) ->
  l1 = l2.
Proof.
  intros H1. revert l2.
  induction H1 as [|x l1 Hs1 IH Hx]; intros l2 H2 Heq.
  - destruct l2 as [|y l2]; [reflexivity|].
    specialize (Heq (start y)). simpl in Heq.
    rewrite Z.eqb_refl in Heq. discriminate.
  - destruct H2 as [|y l2 Hs2 Hy].
    + specialize (Heq (start x)). simpl in Heq.
      rewrite Z.eqb_refl in Heq. discriminate.
    + assert (Hxy : start x = start y).
      { apply Z.le_antisymm.
        - assert (Hin : In y (filter (fun p => start p =? start y) (x :: l1))).
          { rewrite Heq. simpl. rewrite Z.eqb_refl. now left. }
          apply filter_In in Hin as [[<-|Hin] _]; [lia|].
          rewrite Forall_forall in Hx. now apply Hx.
        - assert (Hin : In x (filter (fun p => start p =? start x) (y :: l2))).
          { rewrite <- Heq. simpl. rewrite Z.eqb_refl. now left. }
          apply filter_In in Hin as [[<-|Hin] _]; [lia|].
          rewrite Forall_forall in Hy. now apply Hy. }
      assert (Hhd : x = y).
      { specialize (Heq (start x)). simpl in Heq.
        rewrite Z.eqb_refl in Heq. rewrite <- Hxy, Z.eqb_refl in Heq.
        now injection Heq. }
      subst y. f_equal. apply IH; [assumption|].
      intros t. specialize (Heq t). simpl in Heq.
      destruct (start x =? t); [now injection Heq|assumption].
Qed.

(** The sort of the program puts the programmes of the channel in the
    order [channelSchedule] describes, and no other list is in that
    order. *)
Lemma sort_channelSchedule (programmes : list programme) (id : jsstring)
  (sorted : list programme) :
  channelSchedule programmes id sorted
  <-> sorted = sort byStart (getProgrammesForChannel programmes id).
Proof.
  split.
  - intros (_ & Hs & Hst). apply ascending_unique;
      [assumption|apply sort_sorted|].
    intros t. rewrite Hst, sort_stable. reflexivity.
  - intros ->. split; [apply sort_perm|]. split; [apply sort_sorted|].
    intros t. apply sort_stable.
Qed.

End Resolver.

Lemma slice0_kept {A : Type} (l : list A) (n : Z) :
  slice0 l n = firstn (kept n (List.length l)) l.
Proof.
  unfold kept. destruct (n <? 0) eqn:E.
  - unfold slice0. rewrite E. f_equal. lia.
  - apply Z.ltb_ge in E. now apply slice0_firstn.
Qed.

(** C4, as stated, fails: the function has no reference-time parameter. In
    the call the contract writes, with reference time 250 and count 1, made
    when the clock reads 150, the stated result is the programme covering
    250 and the one programme after it; the program resolves at the clock
    and takes 250 for the count, so it returns the programme covering 150
    and both later ones. And with count -1 the first -1 programmes are
    none, where the program returns all but the last. *)
Lemma getCurrentAndUpcoming_reads_the_clock :
  channelSchedule guide (lit "one") [early; midday; late]
  /\ find (airing 250) [early; midday; late] = Some midday
  /\ firstn 1 (filter (later 250) [early; midday; late]) = [late]
  /\ current (contractCall 150 guide (lit "one") 250 1) = Some early
  /\ upcoming (contractCall 150 guide (lit "one") 250 1) = [midday; late]
  /\ firstn (Z.to_nat (-1)) (filter (later 50) [early; midday; late]) = []
  /\ upcoming (getCurrentAndUpcoming 50 guide (lit "one") (Some (-1)))
     = [early; midday].
Proof.
  split; [apply sort_channelSchedule; reflexivity|].
  repeat split.
Qed.

(** C4, amended: the function takes no reference time; for every reading
    [now] of the clock at the call, every list of programmes, channel
    identifier and count (5 when left out): the programmes whose
    [channelId] matches exactly can be listed in ascending order of [start]
    (equal starts in their original order), and for every list [sorted]
    that lists them so, [current] is the first programme of [sorted] with
    [start <= now < stop], or nothing if none qualifies, and [upcoming] is
    made of the programmes of [sorted] with [start > now], in that order:
    the first [count] of them when [count] is not negative, all but the
    last [-count] of them when it is negative. *)
Theorem getCurrentAndUpcoming_spec
  (now : Z) (programmes : list programme) (id : jsstring) (count : option Z) :
  (exists sorted, channelSchedule programmes id sorted)
  /\ forall sorted,
       channelSchedule programmes id sorted ->
       current (getCurrentAndUpcoming now programmes id count)
       = find (airing now) sorted
       /\ upcoming (getCurrentAndUpcoming now programmes id count)
          = firstn (kept match count with Some c => c | None => 5 end
                      (List.length (filter (later now) sorted)))
              (filter (later now) sorted)
       /\ (0 <= match count with Some c => c | None => 5 end ->
           upcoming (getCurrentAndUpcoming now programmes id count)
           = firstn (Z.to_nat match count with Some c => c | None => 5 end)
               (filter (later now) sorted)).
Proof.
  split.
  - eexists. now apply sort_channelSchedule.
  - intros sorted Hs. apply sort_channelSchedule in Hs. subst sorted.
    assert (Hl : filter (fun p => start p >? now)
                   (sort (fun a b => start a - start b)
                      (getProgrammesForChannel programmes id))
                 = filter (later now)
                     (sort (fun a b => start a - start b)
                        (getProgrammesForChannel programmes id))).
    { apply filter_ext. intros p. unfold later. apply Z.gtb_ltb. }
    split; [|split].
    + simpl. apply find_pointwise. intros p. unfold airing.
      now rewrite Z.gtb_ltb.
    + simpl. rewrite Hl. apply slice0_kept.
    + intros Hc. simpl. rewrite Hl. now apply slice0_firstn.
Qed.

(** ** Date normalization *)

Lemma isLeap_InLeapYear (y : Z) : InLeapYear y = isLeap y.
Proof.
  unfold InLeapYear, isLeap.
  destruct (Z.eqb_spec (y mod 400) 0) as [H4|H4];
  destruct (Z.eqb_spec (y mod 100) 0) as [H1|H1];
  destruct (Z.eqb_spec (y mod 4) 0) as [H|H]; simpl; try reflexivity;
  exfalso; revert H4 H1 H; Z.div_mod_to_equations; lia.
Qed.

Lemma DayFromYear_succ (y : Z) :
  DayFromYear (y + 1) = DayFromYear y + (if isLeap y then 366 else 365).
Proof.
  unfold DayFromYear, isLeap.
  destruct (Z.eqb_spec (y mod 400) 0) as [H4|H4];
  [|destruct (Z.eqb_spec (y mod 100) 0) as [H1|H1];
    [|destruct (Z.eqb_spec (y mod 4) 0) as [H|H]]];
  Z.div_mod_to_equations; lia.
Qed.

Lemma DayFromYear_count (y : nat) :
  DayFromYear (Z.of_nat y) = daysBeforeYear y - daysBeforeYear 1970.
Proof.
  induction y as [|y IH].
  - vm_compute. reflexivity.
  - rewrite Nat2Z.inj_succ, <- Z.add_1_r, DayFromYear_succ, IH.
    generalize (daysBeforeYear 1970). intros epoch.
    change (daysBeforeYear (S y))
      with (daysBeforeYear y + (if isLeap (Z.of_nat y) then 366 else 365)).
    lia.
Qed.

Lemma daysBeforeMonth_count (leap : bool) (m : Z) :
  1 <= m <= 12 ->
  daysBeforeMonth leap m = daysOfMonths leap (Z.to_nat (m - 1)).
Proof.
  intros H.
  assert (Hm : m = 1 \/ m = 2 \/ m = 3 \/ m = 4 \/ m = 5 \/ m = 6 \/ m = 7
               \/ m = 8 \/ m = 9 \/ m = 10 \/ m = 11 \/ m = 12) by lia.
  destruct leap;
    repeat (destruct Hm as [->|Hm]; [vm_compute; reflexivity|]);
    subst; vm_compute; reflexivity.
Qed.

(** The day number of the engine is the day counted on the calendar. *)
Lemma MakeDay_civilDay (y m d : Z) :
  0 <= y -> 1 <= m <= 12 -> MakeDay y m d = civilDay y m d.
Proof.
  intros Hy Hm. unfold MakeDay, civilDay.
  rewrite isLeap_InLeapYear, daysBeforeMonth_count by assumption.
  rewrite <- (Z2Nat.id y) at 1 by assumption.
  rewrite DayFromYear_count. lia.
Qed.

Lemma takeDigits_app (n : nat) (ds r : jsstring) :
  digits n ds -> takeDigits n (ds ++ r) = Some (ds, r).
Proof.
  intros [Hl Hd]. unfold takeDigits. subst n.
  rewrite firstn_app, skipn_app, firstn_all, skipn_all, Nat.sub_diag.
  simpl. rewrite app_nil_r, Nat.eqb_refl, Hd. reflexivity.
Qed.

Lemma span_whitespace (ws r : jsstring) :
  forallb isWhiteSpace ws = true ->
  match r with [] => True | c :: _ => isWhiteSpace c = false end ->
  span isWhiteSpace (ws ++ r) = (ws, r).
Proof.
  intros Hws Hr. induction ws as [|c ws IH]; simpl in *.
  - destruct r as [|c r]; [reflexivity|]. simpl. now rewrite Hr.
  - apply andb_true_iff in Hws as [-> Hws]. now rewrite IH.
Qed.

Lemma digitsValue_nonneg (ds : jsstring) :
  forallb isDigit ds = true -> 0 <= digitsValue ds.
Proof.
  assert (H : forall a, 0 <= a -> forallb isDigit ds = true ->
              0 <= fold_left (fun x c => 10 * x + (Z.of_N c - 48)) ds a).
  { induction ds as [|c ds IH]; intros a Ha Hd; cbn [fold_left forallb] in *;
      [assumption|].
    apply andb_true_iff in Hd as [Hc Hd]. apply IH; [|assumption].
    unfold isDigit in Hc. apply andb_true_iff in Hc as [Hc _].
    apply N.leb_le in Hc. lia. }
  intros Hd. apply H; [lia|assumption].
Qed.

Lemma digits_app (n k : nat) (a b : jsstring) :
  digits n a -> digits k b -> digits (n + k) (a ++ b).
Proof.
  intros [Ha Ha'] [Hb Hb']. split.
  - rewrite length_app. lia.
  - rewrite forallb_app, Ha', Hb'. reflexivity.
Qed.

(** The expression of [parseXmltvDate] on a text of the expected shape. *)
Lemma xmltvPattern_shape (Y M D h m s ws : jsstring) (z : zone) :
  digits 4 Y -> digits 2 M -> digits 2 D ->
  digits 2 h -> digits 2 m -> digits 2 s ->
  forallb isWhiteSpace ws = true -> zoneValid z ->
  xmltvPattern (Y ++ M ++ D ++ h ++ m ++ s ++ ws ++ zoneText z)
  = Some {| year := Y; month := M; day := D; hour := h; minute := m;
            second := s;
            tz := match z with
                  | NoZone => None
                  | Zone _ _ _ => Some (zoneText z)
                  end |}.
Proof.
  intros HY HM HD Hh Hm Hs Hws Hz. unfold xmltvPattern.
  rewrite (takeDigits_app 4 Y) by assumption.
  rewrite (takeDigits_app 2 M) by assumption.
  rewrite (takeDigits_app 2 D) by assumption.
  rewrite (takeDigits_app 2 h) by assumption.
  rewrite (takeDigits_app 2 m) by assumption.
  rewrite (takeDigits_app 2 s) by assumption.
  rewrite span_whitespace; [|assumption|now destruct z as [|[|] hh mm]].
  destruct z as [|negative hh mm]; [reflexivity|].
  destruct Hz as (Hhh & Hmm & _).
  assert (Hs' : (N.eqb (if negative then 45%N else 43%N) 43
                 || N.eqb (if negative then 45%N else 43%N) 45) = true)
    by now destruct negative.
  cbn [zoneText]. rewrite Hs'.
  rewrite <- (app_nil_r (hh ++ mm)) at 1.
  rewrite (takeDigits_app 4 (hh ++ mm)) by now apply (digits_app 2 2).
  reflexivity.
Qed.

Lemma parseZone_offset (negative : bool) (hh mm : jsstring) :
  digits 2 hh -> digits 2 mm ->
  digitsValue hh <= 23 -> digitsValue mm <= 59 ->
  parseZone ((if negative then 45%N else 43%N) :: hh ++ 58%N :: mm)
  = Some (zoneMinutes (Zone negative hh mm)).
Proof.
  intros Hh Hm Hh' Hm'. unfold parseZone.
  assert (Hsign : N.eqb (if negative then 45%N else 43%N) 90 = false)
    by now destruct negative.
  assert (Hsign' : (N.eqb (if negative then 45%N else 43%N) 43
                    || N.eqb (if negative then 45%N else 43%N) 45) = true)
    by now destruct negative.
  rewrite Hsign, Hsign'.
  rewrite (takeDigits_app 2 hh) by assumption.
  cbn [expect]. rewrite N.eqb_refl.
  rewrite <- (app_nil_r mm) at 1.
  rewrite (takeDigits_app 2 mm) by assumption.
  cbv zeta.
  assert ((digitsValue hh <=? 23) = true) as -> by now apply Z.leb_le.
  assert ((digitsValue mm <=? 59) = true) as -> by now apply Z.leb_le.
  cbn [andb zoneMinutes]. now destruct negative.
Qed.

Lemma daysInMonth_le (leap : bool) (m : Z) : daysInMonth leap m <= 31.
Proof.
  unfold daysInMonth.
  destruct (m =? 2); [destruct leap; lia|].
  destruct ((m =? 4) || (m =? 6) || (m =? 9) || (m =? 11)); lia.
Qed.

(** The engine's reading of the string [parseXmltvDate] builds, when the
    fields are those of a calendar date and a time of day. *)
Lemma dateFromISO_shape (Y M D h m s zs : jsstring) (offset : Z) :
  digits 4 Y -> digits 2 M -> digits 2 D ->
  digits 2 h -> digits 2 m -> digits 2 s ->
  parseZone zs = Some offset ->
  civilValid (digitsValue Y) (digitsValue M) (digitsValue D)
             (digitsValue h) (digitsValue m) (digitsValue s) ->
  dateFromISO (Y ++ 45%N :: M ++ 45%N :: D ++ 84%N :: h ++ 58%N :: m
                 ++ 58%N :: s ++ zs)
  = Some (civilInstant (digitsValue Y) (digitsValue M) (digitsValue D)
            (digitsValue h) (digitsValue m) (digitsValue s)
          - offset * 60000).
Proof.
  intros HY HM HD Hh Hm Hs Hz (HvM & HvD & Hvh & Hvm & Hvs).
  unfold dateFromISO.
  rewrite (takeDigits_app 4 Y) by assumption. cbn [expect]. rewrite N.eqb_refl.
  rewrite (takeDigits_app 2 M) by assumption. cbn [expect]. rewrite N.eqb_refl.
  rewrite (takeDigits_app 2 D) by assumption. cbn [expect]. rewrite N.eqb_refl.
  rewrite (takeDigits_app 2 h) by assumption. cbn [expect]. rewrite N.eqb_refl.
  rewrite (takeDigits_app 2 m) by assumption. cbn [expect]. rewrite N.eqb_refl.
  rewrite (takeDigits_app 2 s) by assumption.
  rewrite Hz. cbv zeta.
  assert (Hd31 : digitsValue D <= 31).
  { pose proof (daysInMonth_le (isLeap (digitsValue Y)) (digitsValue M)). lia. }
  assert (((1 <=? digitsValue M) && (digitsValue M <=? 12)
           && (1 <=? digitsValue D) && (digitsValue D <=? 31)
           && ((digitsValue h <=? 23) && (digitsValue m <=? 59)
               && (digitsValue s <=? 59)
               || (digitsValue h =? 24) && (digitsValue m =? 0)
                  && (digitsValue s =? 0))) = true) as ->.
  { repeat (apply andb_true_iff; split); try (apply Z.leb_le; lia).
    apply orb_true_iff. left.
    repeat (apply andb_true_iff; split); apply Z.leb_le; lia. }
  rewrite MakeDay_civilDay;
    [|apply digitsValue_nonneg, HY|assumption].
  unfold civilInstant, MakeDate, MakeTime, msPerDay, msPerHour, msPerMinute,
    msPerSecond. f_equal. lia.
Qed.

(** C8: for every text made of 4+2+2+2+2+2 digits whose fields are those
    of a calendar date and a time of day, optionally followed by white
    space and by a sign and four digits of a valid offset,
    [parseXmltvDate] returns the instant at which a clock set to that
    offset (to UTC when none is given) shows these fields: the instant the
    fields denote on a UTC clock, less the offset. *)
Theorem parseXmltvDate_instant
  (legacyDate : jsstring -> option Z) (Y M D h m s ws : jsstring) (z : zone) :
  digits 4 Y -> digits 2 M -> digits 2 D ->
  digits 2 h -> digits 2 m -> digits 2 s ->
  forallb isWhiteSpace ws = true -> zoneValid z ->
  civilValid (digitsValue Y) (digitsValue M) (digitsValue D)
             (digitsValue h) (digitsValue m) (digitsValue s) ->
  parseXmltvDate legacyDate (Some (Y ++ M ++ D ++ h ++ m ++ s ++ ws ++ zoneText z))
  = Instant (civilInstant (digitsValue Y) (digitsValue M) (digitsValue D)
               (digitsValue h) (digitsValue m) (digitsValue s)
             - zoneMinutes z * 60000).
Proof.
  intros HY HM HD Hh Hm Hs Hws Hz Hv. unfold parseXmltvDate.
  assert (Ht : truthy (Y ++ M ++ D ++ h ++ m ++ s ++ ws ++ zoneText z) = true).
  { destruct HY as [HY _]. destruct Y; [discriminate|reflexivity]. }
  rewrite Ht. cbn [negb].
  rewrite xmltvPattern_shape by assumption.
  cbn [year month day hour minute second tz].
  change (lit "-") with [45%N]. change (lit "T") with [84%N].
  change (lit ":") with [58%N]. change (lit "Z") with [90%N].
  destruct z as [|negative hh mm].
  - rewrite <- !app_assoc. cbn [app].
    rewrite (dateFromISO_shape Y M D h m s [90%N] 0); try assumption;
      [|reflexivity].
    reflexivity.
  - destruct Hz as (Hhh & Hmm & Hhh' & Hmm').
    cbn [zoneText truthy].
    assert (Hsub : substring2 ((if negative then 45%N else 43%N) :: hh ++ mm) 0 3
                   = (if negative then 45%N else 43%N) :: hh).
    { destruct Hhh as [Hl _].
      destruct hh as [|a [|b [|? ?]]]; try discriminate. reflexivity. }
    assert (Hsub' : substring ((if negative then 45%N else 43%N) :: hh ++ mm) 3
                    = mm).
    { destruct Hhh as [Hl _].
      destruct hh as [|a [|b [|? ?]]]; try discriminate. reflexivity. }
    rewrite Hsub, Hsub'.
    rewrite <- !app_assoc. cbn [app].
    rewrite (dateFromISO_shape Y M D h m s _ (zoneMinutes (Zone negative hh mm)));
      try assumption; [reflexivity|].
    now apply parseZone_offset.
Qed.

Lemma parseXmltvDate_instant_witness :
  parseXmltvDate (fun _ => None) (Some (lit "20231225120000 +0000"))
  = Instant 1703505600000.
Proof.
  assert (E : Instant 1703505600000
              = Instant (civilInstant (digitsValue (lit "2023"))
                           (digitsValue (lit "12")) (digitsValue (lit "25"))
                           (digitsValue (lit "12")) (digitsValue (lit "00"))
                           (digitsValue (lit "00"))
                         - zoneMinutes (Zone false (lit "00") (lit "00")) * 60000))
    by (vm_compute; reflexivity).
  rewrite E.
  apply (parseXmltvDate_instant (fun _ => None)
           (lit "2023") (lit "12") (lit "25") (lit "12") (lit "00") (lit "00")
           [32%N] (Zone false (lit "00") (lit "00")));
    try (split; reflexivity).
  - vm_compute. repeat split; discriminate.
  - vm_compute. repeat split; discriminate.
Defined.

(** * Further properties of the guide parser *)

(** ** Text extraction *)

(** [extractText] never returns the empty string: its result is [null] or
    a string with at least one code unit. *)
Theorem extractText_never_empty (element : option node) :
  extractText element <> Some [].
Proof.
  funelim (extractText element); try discriminate; try assumption.
  - destruct s; simpl; discriminate.
  - match goal with
    | |- (if truthy_opt ?t then _ else if truthy_opt ?h then _ else _) <> _ =>
        destruct t as [[|c t']|]; simpl; try discriminate;
        destruct h as [[|c' h']|]; simpl; discriminate
    end.
Qed.

(** A list of one entry is extracted like the entry alone: the two shapes
    the XML deserialiser gives to an element that occurs once or several
    times yield the same text, and the empty list yields [null]. *)
Theorem extractText_singleton (e : node) :
  extractText (Some (Items [e])) = extractText (Some e)
  /\ extractText (Some (Items [])) = None.
Proof.
  split; [|reflexivity].
  rewrite extractText_equation_2. unfold preferred. simpl.
  destruct (isEnglish e || isUntagged e); [|reflexivity].
  now destruct (truthyNode e).
Qed.

Lemma extractAll_texts (cats : list node) :
  Forall (fun o => exists s, o = Some s /\ s <> []) (extractAll cats)
  /\ (List.length (extractAll cats) <= List.length cats)%nat.
Proof.
  unfold extractAll. split.
  - apply Forall_forall. intros o Hin. apply filter_In in Hin as [_ Ht].
    destruct o as [s|]; [|discriminate]. exists s. split; [reflexivity|].
    now destruct s.
  - rewrite <- (length_map (fun c => extractText (Some c)) cats).
    apply filter_length_le.
Qed.

(** ** Categories *)

(** [extractCategories] returns only non-empty strings, never [null] or the
    empty string, and no more of them than the value has entries (one, for
    a value that is not a list); a missing or empty value gives the empty
    list. *)
Theorem extractCategories_texts (category : option node) :
  Forall (fun o => exists s, o = Some s /\ s <> []) (extractCategories category)
  /\ (List.length (extractCategories category)
      <= match category with
         | Some (Items entries) => List.length entries
         | Some _ => 1
         | None => 0
         end)%nat.
Proof.
  destruct category as [c|]; simpl; [|split; [constructor|lia]].
  destruct c as [s|entries|lang text hashText]; simpl.
  - destruct (truthy s); simpl; [apply (extractAll_texts [Text s])|].
    split; [constructor|lia].
  - apply extractAll_texts.
  - apply (extractAll_texts [Element lang text hashText]).
Qed.

(** For a value that is not a list, [extractCategories] gives the same
    result for the value alone and for the list that holds just it; the
    result is the extracted text of the value, or nothing when that is
    [null]. *)
Theorem extractCategories_single (c : node) :
  isSingle c = true ->
  extractCategories (Some (Items [c])) = extractCategories (Some c)
  /\ extractCategories (Some c)
     = match extractText (Some c) with
       | Some s => [Some s]
       | None => []
       end.
Proof.
  intros Hc.
  assert (H : extractCategories (Some (Items [c]))
              = match extractText (Some c) with
                | Some s => [Some s]
                | None => []
                end).
  { unfold extractCategories, extractAll. cbn [truthyNode negb map filter].
    assert (Hn : extractText (Some c) <> Some []).
    { destruct c as [s|entries|lang text hashText]; [|discriminate|].
      - rewrite extractText_equation_1. destruct s; discriminate.
      - rewrite extractText_equation_3.
        destruct text as [[|x t]|]; simpl; try discriminate;
          destruct hashText as [[|y h]|]; simpl; discriminate. }
    destruct (extractText (Some c)) as [[|x s]|]; cbn [truthy_opt truthy];
      [now elim Hn|reflexivity|reflexivity]. }
  split; [|rewrite <- H]; destruct c as [s|entries|lang text hashText];
    try discriminate; try reflexivity;
    unfold extractCategories, extractAll; cbn [truthyNode negb map filter];
    rewrite extractText_equation_1; destruct s; reflexivity.
Qed.

Lemma extractCategories_single_witness :
  extractCategories (Some (Items [Text (lit "News")]))
  = extractCategories (Some (Text (lit "News")))
  /\ extractCategories (Some (Text (lit "News"))) = [Some (lit "News")].
Proof.
  apply (extractCategories_single (Text (lit "News"))). reflexivity.
Defined.

(** ** Episode numbers *)

Lemma firstEpisodeNum_first (pre post : list node) (e : node) :
  (forall x, In x pre -> hasNumber x = false) -> hasNumber e = true ->
  firstEpisodeNum (pre ++ e :: post) = numberOf e.
Proof.
  intros Hpre He. induction pre as [|x pre IH]; simpl.
  - destruct e as [s|entries|lang text hashText]; simpl in *;
      [reflexivity|discriminate|].
    rewrite He. unfold or_opt. reflexivity.
  - assert (Hx : hasNumber x = false) by (apply Hpre; now left).
    destruct x as [s|entries|lang text hashText]; simpl in Hx;
      [discriminate| |rewrite Hx];
      apply IH; intros y Hy; apply Hpre; now right.
Qed.

Lemma firstEpisodeNum_none (nums : list node) :
  (forall x, In x nums -> hasNumber x = false) -> firstEpisodeNum nums = None.
Proof.
  induction nums as [|x nums IH]; intros H; simpl; [reflexivity|].
  assert (Hx : hasNumber x = false) by (apply H; now left).
  destruct x as [s|entries|lang text hashText]; simpl in Hx;
    [discriminate| |rewrite Hx]; apply IH; intros y Hy; apply H; now right.
Qed.

(** [extractEpisodeNum] on a list returns the number of the first entry
    that is a string or an object with text: the string as it is (the empty
    string included), or the text of the object; entries before it that are
    objects without text or nested lists are passed over, and when no entry
    carries a number the result is [null], never a rendering of the
    object. *)
Theorem extractEpisodeNum_list (nums : list node) :
  (forall pre e post,
     nums = pre ++ e :: post ->
     (forall x, In x pre -> hasNumber x = false) -> hasNumber e = true ->
     extractEpisodeNum (Some (Items nums)) = numberOf e)
  /\ ((forall x, In x nums -> hasNumber x = false) ->
      extractEpisodeNum (Some (Items nums)) = None).
Proof.
  split.
  - intros pre e post -> Hpre He. simpl. now apply firstEpisodeNum_first.
  - intros H. simpl. now apply firstEpisodeNum_none.
Qed.

(** For a value that is not a list, [extractEpisodeNum] returns the value
    itself when it is a non-empty string, its text when it is an object
    with text, and [null] otherwise; unlike [extractText], it never renders
    an object without text as a string. On such a value the two functions
    agree exactly when the value is a string or has text. *)
Theorem extractEpisodeNum_single (e : node) :
  isSingle e = true ->
  (hasNumber e = true -> extractEpisodeNum (Some e) = extractText (Some e))
  /\ (hasNumber e = false ->
      extractEpisodeNum (Some e) = None
      /\ extractText (Some e) = Some (lit "[object Object]")).
Proof.
  intros Hs. destruct e as [s|entries|lang text hashText];
    [| discriminate |].
  - split; [|discriminate]. intros _. simpl.
    rewrite extractText_equation_1. now destruct (truthy s).
  - simpl. rewrite extractText_equation_3. split; intros H.
    + rewrite H. unfold or_opt.
      destruct (truthy_opt text); [reflexivity|]. simpl in H.
      now rewrite H.
    + rewrite H. apply orb_false_iff in H as [-> ->]. auto.
Qed.

Lemma extractEpisodeNum_single_witness :
  (hasNumber (Element None (Some (lit "S01E02")) None) = true ->
   extractEpisodeNum (Some (Element None (Some (lit "S01E02")) None))
   = extractText (Some (Element None (Some (lit "S01E02")) None)))
  /\ (hasNumber (Element None (Some (lit "S01E02")) None) = false ->
      extractEpisodeNum (Some (Element None (Some (lit "S01E02")) None)) = None
      /\ extractText (Some (Element None (Some (lit "S01E02")) None))
         = Some (lit "[object Object]")).
Proof.
  apply (extractEpisodeNum_single (Element None (Some (lit "S01E02")) None)).
  reflexivity.
Defined.

(** * Further properties of the schedule resolver *)

Lemma firstn_incl {A : Type} (k : nat) (l : list A) (x : A) :
  In x (firstn k l) -> In x l.
Proof.
  intros H. rewrite <- (firstn_skipn k l). apply in_or_app. now left.
Qed.

Lemma slice0_prefix {A : Type} (l : list A) (n : Z) :
  exists k, slice0 l n = firstn k l.
Proof. unfold slice0. now eexists. Qed.

Lemma StronglySorted_firstn {A : Type} (R : A -> A -> Prop) (k : nat)
  (l : list A) :
  StronglySorted R l -> StronglySorted R (firstn k l).
Proof.
  intros H. revert k. induction H as [|x l Hs IH Hx]; intros k.
  - rewrite firstn_nil. constructor.
  - destruct k as [|k]; simpl; constructor; [apply IH|].
    rewrite Forall_forall in *. intros y Hy. apply Hx.
    now apply (firstn_incl k).
Qed.

Lemma StronglySorted_filter {A : Type} (R : A -> A -> Prop) (f : A -> bool)
  (l : list A) :
  StronglySorted R l -> StronglySorted R (filter f l).
Proof.
  induction 1 as [|x l Hs IH Hx]; simpl; [constructor|].
  destruct (f x); [|assumption]. constructor; [assumption|].
  rewrite Forall_forall in *. intros y Hy. apply Hx.
  now apply filter_In in Hy.
Qed.

Lemma sorted_of_channel (programmes : list programme) (id : jsstring)
  (p : programme) :
  In p (sort (fun a b => start a - start b)
          (getProgrammesForChannel programmes id))
  <-> In p programmes /\ channelId p = id.
Proof.
  split.
  - intros H. apply (Permutation_in _ (sort_perm _)) in H.
    apply filter_In in H as [Hin He]. now apply eqb_eq in He.
  - intros [Hin He]. apply (Permutation_in _ (Permutation_sym (sort_perm _))).
    apply filter_In. split; [assumption|]. now apply eqb_eq.
Qed.

(** The upcoming programmes are programmes of the list, of the channel
    asked for, that start strictly after the reference time; they come in
    ascending order of start; and there are at most [count] of them when
    [count] is not negative (at most 5 when it is left out). *)
Theorem upcoming_bounds
  (now : Z) (programmes : list programme) (id : jsstring) (count : option Z) :
  Forall (fun p => In p programmes /\ channelId p = id /\ now < start p)
    (upcoming (getCurrentAndUpcoming now programmes id count))
  /\ StronglySorted (fun a b => start a <= start b)
       (upcoming (getCurrentAndUpcoming now programmes id count))
  /\ (0 <= match count with Some c => c | None => 5 end ->
      (List.length (upcoming (getCurrentAndUpcoming now programmes id count))
       <= Z.to_nat match count with Some c => c | None => 5 end)%nat).
Proof.
  simpl.
  destruct (slice0_prefix
              (filter (fun p => start p >? now)
                 (sort (fun a b => start a - start b)
                    (getProgrammesForChannel programmes id)))
              match count with Some c => c | None => 5 end) as [k Hk].
  split; [|split].
  - rewrite Hk. apply Forall_forall. intros p Hp.
    apply firstn_incl in Hp. apply filter_In in Hp as [Hin Hl].
    apply sorted_of_channel in Hin as [Hin Hid].
    split; [assumption|]. split; [assumption|].
    rewrite Z.gtb_ltb in Hl. now apply Z.ltb_lt.
  - rewrite Hk. apply StronglySorted_firstn, StronglySorted_filter, sort_sorted.
  - intros Hc. rewrite slice0_firstn by assumption. apply firstn_le_length.
Qed.

Lemma find_split {A : Type} (f : A -> bool) (l : list A) (x : A) :
  find f l = Some x ->
  exists l1 l2, l = l1 ++ x :: l2 /\ f x = true
                /\ forall y, In y l1 -> f y = false.
Proof.
  induction l as [|a l IH]; simpl; [discriminate|].
  destruct (f a) eqn:E.
  - intros [= ->]. exists [], l. repeat split; [assumption|intros y []].
  - intros H. destruct (IH H) as (l1 & l2 & -> & Hx & Hl1).
    exists (a :: l1), l2. repeat split; [assumption|].
    intros y [<-|Hy]; [assumption|now apply Hl1].
Qed.

Lemma StronglySorted_after {A : Type} (R : A -> A -> Prop) (l1 l2 : list A)
  (x : A) :
  StronglySorted R (l1 ++ x :: l2) -> Forall (R x) l2.
Proof.
  induction l1 as [|a l1 IH]; simpl; intros H; inversion H; subst; auto.
Qed.

(** The current programme: there is none exactly when no programme of the
    channel covers the reference time; otherwise it is a programme of the
    list and of the channel that covers the reference time, no programme of
    the channel that covers it starts earlier, and it is not among the
    upcoming ones. *)
Theorem current_earliest
  (now : Z) (programmes : list programme) (id : jsstring) (count : option Z) :
  (current (getCurrentAndUpcoming now programmes id count) = None
   <-> forall p, In p programmes -> channelId p = id -> airing now p = false)
  /\ forall p,
       current (getCurrentAndUpcoming now programmes id count) = Some p ->
       In p programmes /\ channelId p = id /\ start p <= now < stop p
       /\ (forall q, In q programmes -> channelId q = id ->
                     airing now q = true -> start p <= start q)
       /\ ~ In p (upcoming (getCurrentAndUpcoming now programmes id count)).
Proof.
  assert (Hf : forall l, find (fun p => (start p <=? now) && (stop p >? now)) l
                         = find (airing now) l).
  { intros l. apply find_pointwise. intros p. unfold airing.
    now rewrite Z.gtb_ltb. }
  simpl. rewrite Hf. split.
  - split.
    + intros Hn p Hin Hid.
      apply (find_none _ _ Hn). apply sorted_of_channel. auto.
    + intros H. apply find_none_iff. intros p Hp.
      apply sorted_of_channel in Hp as [Hin Hid]. now apply H.
  - intros p Hp.
    destruct (find_split _ _ _ Hp) as (l1 & l2 & Hl & Ha & Hbefore).
    assert (Hin : In p (sort (fun a b => start a - start b)
                          (getProgrammesForChannel programmes id))).
    { rewrite Hl. apply in_or_app. right. now left. }
    apply sorted_of_channel in Hin as [Hin Hid].
    assert (Hair : start p <= now < stop p).
    { unfold airing in Ha. apply andb_true_iff in Ha as [H1 H2].
      apply Z.leb_le in H1. apply Z.ltb_lt in H2. lia. }
    repeat split; try assumption; try lia.
    + intros q Hq Hqid Hqa.
      assert (Hqs : In q (l1 ++ p :: l2)).
      { rewrite <- Hl. apply sorted_of_channel. auto. }
      apply in_app_or in Hqs as [Hq1|[<-|Hq2]].
      * rewrite (Hbefore q Hq1) in Hqa. discriminate.
      * lia.
      * pose proof (sort_sorted (getProgrammesForChannel programmes id)) as Hs.
        rewrite Hl in Hs. apply StronglySorted_after in Hs.
        rewrite Forall_forall in Hs. now apply Hs.
    + intros Hu.
      destruct (slice0_prefix
                  (filter (fun p => start p >? now)
                     (sort (fun a b => start a - start b)
                        (getProgrammesForChannel programmes id)))
                  match count with Some c => c | None => 5 end) as [k Hk].
      rewrite Hk in Hu. apply firstn_incl in Hu.
      apply filter_In in Hu as [_ Hlater].
      rewrite Z.gtb_ltb in Hlater. apply Z.ltb_lt in Hlater. lia.
Qed.

Lemma Permutation_filter_keep {A : Type} (f : A -> bool) (l l' : list A) :
  Permutation l l' -> Permutation (filter f l) (filter f l').
Proof.
  induction 1 as [|x l l' Hp IH|x y l|l l' l'' H1 IH1 H2 IH2]; simpl.
  - constructor.
  - destruct (f x); [now constructor|assumption].
  - destruct (f x), (f y); try reflexivity. apply perm_swap.
  - now transitivity (filter f l').
Qed.

Lemma distinct_start_once (t : Z) (l : list programme) :
  NoDup (map start l) ->
  (List.length (filter (fun p => (start p =? t)%Z) l) <= 1)%nat.
Proof.
  induction l as [|x l IH]; simpl; intros Hd; [lia|].
  inversion Hd as [|? ? Hx Hd']; subst.
  destruct (Z.eqb_spec (start x) t) as [E|E]; [|now apply IH].
  simpl.
  assert (Hnone : filter (fun p => start p =? t) l = []).
  { destruct (filter (fun p => start p =? t) l) as [|y r] eqn:Ef;
      [reflexivity|].
    assert (Hy : In y (filter (fun p => start p =? t) l))
      by (rewrite Ef; now left).
    apply filter_In in Hy as [Hy Hyt]. apply Z.eqb_eq in Hyt.
    exfalso. apply Hx. rewrite E, <- Hyt. now apply in_map. }
  rewrite Hnone. simpl. lia.
Qed.

(** When the programmes of the channel all start at different times, the
    result does not depend on the order of the input list: any
    rearrangement of the programmes gives the same current programme and
    the same upcoming list. *)
Theorem getCurrentAndUpcoming_order_free
  (now : Z) (programmes programmes' : list programme) (id : jsstring)
  (count : option Z) :
  Permutation programmes programmes' ->
  NoDup (map start (getProgrammesForChannel programmes id)) ->
  getCurrentAndUpcoming now programmes id count
  = getCurrentAndUpcoming now programmes' id count.
Proof.
  intros Hp Hd.
  assert (Hpf : Permutation (getProgrammesForChannel programmes id)
                  (getProgrammesForChannel programmes' id))
    by now apply Permutation_filter_keep.
  assert (Hd' : NoDup (map start (getProgrammesForChannel programmes' id))).
  { apply (Permutation_NoDup (Permutation_map start Hpf)). assumption. }
  assert (Hs : sort (fun a b => start a - start b)
                 (getProgrammesForChannel programmes id)
               = sort (fun a b => start a - start b)
                   (getProgrammesForChannel programmes' id)).
  { apply ascending_unique; [apply sort_sorted|apply sort_sorted|].
    intros t. rewrite !sort_stable.
    pose proof (distinct_start_once t _ Hd) as H1.
    pose proof (distinct_start_once t _ Hd') as H2.
    pose proof (Permutation_filter_keep (fun p => start p =? t) _ _ Hpf) as Hpt.
    destruct (filter (fun p => start p =? t)
                (getProgrammesForChannel programmes id)) as [|a [|b r]];
      simpl in H1; try lia.
    - apply Permutation_nil in Hpt. now rewrite Hpt.
    - apply Permutation_length_1_inv in Hpt. now rewrite Hpt. }
  unfold getCurrentAndUpcoming. now rewrite Hs.
Qed.

Lemma getCurrentAndUpcoming_order_free_witness :
  getCurrentAndUpcoming 150 guide (lit "one") None
  = getCurrentAndUpcoming 150 (rev guide) (lit "one") None.
Proof.
  apply (getCurrentAndUpcoming_order_free 150 guide (rev guide) (lit "one") None).
  - apply Permutation_rev.
  - vm_compute. repeat constructor; simpl; intuition discriminate.
Defined.

(** * Further properties of the playlist parser *)

(** ** What every channel carries *)

Section Channels.

Variable toLowerCase : jsstring -> jsstring.
Variable clock : nat -> Z.

Lemma generateStableId_nonempty (name group : nullable) :
  generateStableId name group <> [].
Proof. unfold generateStableId. discriminate. Qed.

Lemma or_else_nonempty (a : nullable) (b : jsstring) :
  b <> [] -> or_else a b <> [].
Proof.
  intros Hb. destruct a as [[|c s]|]; simpl; [assumption|discriminate|assumption].
Qed.

Lemma makeChannel_filled (info : Info.t) (group : nullable) (line : jsstring) :
  isUrl line = true ->
  Channel.id (makeChannel info group line) <> []
  /\ Channel.groupTitle (makeChannel info group line) <> []
  /\ Channel.url (makeChannel info group line) = line.
Proof.
  intros Hu. simpl. split; [|split; [|reflexivity]].
  - apply or_else_nonempty, generateStableId_nonempty.
  - apply or_else_nonempty. discriminate.
Qed.

Lemma scan_filled (all lines : list jsstring) (i : nat) (st : scan) :
  (forall l, In l lines -> In l all) ->
  Forall (fun c => Channel.id c <> [] /\ Channel.groupTitle c <> []
                   /\ isUrl (Channel.url c) = true /\ In (Channel.url c) all)
    (chans st) ->
  Forall (fun c => Channel.id c <> [] /\ Channel.groupTitle c <> []
                   /\ isUrl (Channel.url c) = true /\ In (Channel.url c) all)
    (chans (scanLines toLowerCase clock i lines st)).
Proof.
  revert i st. induction lines as [|line more IH]; intros i st Hin H; simpl;
    [assumption|].
  apply IH; [intros l Hl; apply Hin; now right|].
  destruct (step_cases toLowerCase (clock i) st line)
    as [Ei Eu Es|Ei Eg Eu Ec|info Ei Eu Ec|Ei Eu Ec|Ei Eu Es];
    try assumption.
  simpl. apply Forall_app. split; [assumption|].
  constructor; [|constructor].
  destruct (makeChannel_filled info (currentGroup st) line Eu) as (H1 & H2 & H3).
  rewrite H3. repeat split; try assumption. apply Hin. now left.
Qed.

(** Every channel of an accepted playlist has a non-empty [id], a
    non-empty [groupTitle] and a [url] that is one of the trimmed lines of
    the text after the header, not empty and not starting with [#]. As a
    consequence a group with the empty name, which an [#EXTGRP:] line
    without text creates, counts no channel. *)
Theorem channels_filled (content : jsstring) (r : playlist) :
  parse toLowerCase clock content = Return r ->
  Forall (fun c => Channel.id c <> [] /\ Channel.groupTitle c <> []
                   /\ isUrl (Channel.url c) = true
                   /\ In (Channel.url c) (tl (linesOf content)))
    (channels r)
  /\ forall g, In g (groups r) -> Group.name g = [] ->
               Group.channelCount g = 0%nat.
Proof.
  intros H. destruct (firstLineHasMarker content) eqn:E.
  - rewrite parse_accepts in H by assumption. injection H as <-. cbv zeta.
    cbn [channels groups].
    assert (Hf : Forall (fun c => Channel.id c <> [] /\ Channel.groupTitle c <> []
                            /\ isUrl (Channel.url c) = true
                            /\ In (Channel.url c) (tl (linesOf content)))
                   (chans (scanLines toLowerCase clock 1 (tl (linesOf content))
                             initial))).
    { apply scan_filled; [auto|constructor]. }
    split; [assumption|].
    intros g Hg Hname.
    assert (Hcount : forall cs i names,
               In g (makeGroups cs i names) ->
               Group.channelCount g = countIn cs (Group.name g)).
    { intros cs i names. revert i.
      induction names as [|n names IH]; intros i; simpl; [intros []|].
      intros [<-|Hin]; [reflexivity|now apply (IH (S i))]. }
    rewrite (Hcount _ _ _ Hg), Hname. unfold countIn.
    rewrite Forall_forall in Hf.
    match goal with |- List.length ?l = _ => destruct l as [|c cs] eqn:El end;
      [reflexivity|].
    assert (Hc : In c (c :: cs)) by now left.
    rewrite <- El in Hc. apply filter_In in Hc as [Hin He].
    apply eqb_eq in He. destruct (Hf c Hin) as (_ & Hg' & _). contradiction.
  - rewrite parse_rejects in H by assumption. discriminate.
Qed.

Lemma filter_all_length {A : Type} (f : A -> bool) (l : list A) :
  List.length (filter f l) = List.length l <-> forall x, In x l -> f x = true.
Proof.
  induction l as [|x l IH]; simpl; [tauto|].
  pose proof (filter_length_le f l) as Hle.
  destruct (f x) eqn:E; simpl.
  - split.
    + intros H y [<-|Hy]; [assumption|]. apply IH; [lia|assumption].
    + intros H. f_equal. apply IH. intros y Hy. apply H. now right.
  - split; [lia|]. intros H. specialize (H x (or_introl eq_refl)). congruence.
Qed.

(** Group accounting as the program keeps it: the names of the groups are
    pairwise distinct; the sum of [channelCount] never exceeds the number
    of channels, and equals it exactly when the [groupTitle] of every
    channel is the name of a group; a channel for which it is not carries
    the sentinel [Uncategorized]. *)
Theorem group_counts_bounded (content : jsstring) (r : playlist) :
  parse toLowerCase clock content = Return r ->
  NoDup (map Group.name (groups r))
  /\ (totalCount (groups r) <= List.length (channels r))%nat
  /\ (totalCount (groups r) = List.length (channels r)
      <-> forall c, In c (channels r) -> listed (groups r) c = true)
  /\ (forall c, In c (channels r) -> listed (groups r) c = false ->
                Channel.groupTitle c = lit "Uncategorized").
Proof.
  intros H.
  destruct (group_accounting toLowerCase clock content r H) as (Hd & Hsum & Hs).
  split; [assumption|]. rewrite Hsum.
  split; [apply filter_length_le|]. split; [apply filter_all_length|assumption].
Qed.

(** The number of channels never exceeds the number of metadata lines, nor
    the number of URL lines, of the text. *)
Theorem channels_at_most (content : jsstring) (r : playlist) :
  parse toLowerCase clock content = Return r ->
  (List.length (channels r) <= List.length (filter isExtinf (linesOf content)))%nat
  /\ (List.length (channels r) <= List.length (filter isUrl (linesOf content)))%nat.
Proof.
  intros H.
  assert (He : forall skip ls,
             (entries skip ls <= List.length (filter isExtinf ls))%nat).
  { intros skip ls. induction ls as [|l ls IH]; simpl; [lia|].
    destruct (isExtinf l); simpl; [|lia].
    destruct (followedByUrl skip ls); simpl; lia. }
  assert (Hu : forall ls i st,
             (List.length (chans (scanLines toLowerCase clock i ls st))
              <= List.length (chans st) + List.length (filter isUrl ls))%nat).
  { induction ls as [|l ls IH]; intros i st; simpl; [lia|].
    specialize (IH (S i) (step toLowerCase (clock i) st l)).
    destruct (step_cases toLowerCase (clock i) st l)
      as [Ei Eu Es|Ei Eg Eu Ec|info Ei Eu Ec|Ei Eu Ec|Ei Eu Es];
      rewrite Eu; simpl in *; try rewrite length_app in IH; simpl in *; lia. }
  destruct (firstLineHasMarker content) eqn:E.
  - rewrite parse_accepts in H by assumption. injection H as <-. cbv zeta.
    cbn [channels]. split.
    + rewrite scanLines_count. simpl.
      specialize (He blankOrOtherComment (tl (linesOf content))).
      destruct (linesOf content) as [|l0 ls]; simpl in *; [lia|].
      destruct (isExtinf l0); simpl; lia.
    + specialize (Hu (tl (linesOf content)) 1%nat initial). simpl in Hu.
      destruct (linesOf content) as [|l0 ls]; simpl in *; [lia|].
      destruct (isUrl l0); simpl; lia.
  - rewrite parse_rejects in H by assumption. discriminate.
Qed.

End Channels.

Lemma channels_filled_witness :
  exists r,
    parse asciiLower (fixedClock 0) withTvgId = Return r
    /\ Forall (fun c => Channel.id c <> [] /\ Channel.groupTitle c <> []
                        /\ isUrl (Channel.url c) = true
                        /\ In (Channel.url c) (tl (linesOf withTvgId)))
         (channels r)
    /\ forall g, In g (groups r) -> Group.name g = [] ->
                 Group.channelCount g = 0%nat.
Proof.
  eexists. split; [reflexivity|].
  apply (channels_filled asciiLower (fixedClock 0) withTvgId). reflexivity.
Defined.

Lemma group_counts_bounded_witness :
  exists r,
    parse asciiLower (fixedClock 0) twoNews = Return r
    /\ NoDup (map Group.name (groups r))
    /\ (totalCount (groups r) <= List.length (channels r))%nat
    /\ (totalCount (groups r) = List.length (channels r)
        <-> forall c, In c (channels r) -> listed (groups r) c = true)
    /\ (forall c, In c (channels r) -> listed (groups r) c = false ->
                  Channel.groupTitle c = lit "Uncategorized").
Proof.
  eexists. split; [reflexivity|].
  apply (group_counts_bounded asciiLower (fixedClock 0) twoNews). reflexivity.
Defined.

Lemma channels_at_most_witness :
  exists r,
    parse asciiLower (fixedClock 0) withOptionLine = Return r
    /\ (List.length (channels r)
        <= List.length (filter isExtinf (linesOf withOptionLine)))%nat
    /\ (List.length (channels r)
        <= List.length (filter isUrl (linesOf withOptionLine)))%nat.
Proof.
  eexists. split; [reflexivity|].
  apply (channels_at_most asciiLower (fixedClock 0) withOptionLine). reflexivity.
Defined.

Lemma parse_clock_free_witness :
  parse asciiLower (fixedClock 1) withTvgId
  = parse asciiLower (fixedClock 2) withTvgId.
Proof.
  apply (parse_clock_free asciiLower (fixedClock 1) (fixedClock 2) withTvgId).
  intros line now Hin Hext.
  vm_compute in Hin.
  repeat (destruct Hin as [<-|Hin]; [try discriminate; vm_compute; auto|]).
  destruct Hin.
Defined.

(** ** Line endings *)

Lemma split_line (l r : jsstring) :
  ~ In 10%N l -> split 10 (l ++ 10%N :: r) = l :: split 10 r.
Proof.
  induction l as [|c l IH]; intros Hl; simpl; [reflexivity|].
  destruct (N.eqb_spec c 10) as [->|Hc]; [exfalso; apply Hl; now left|].
  rewrite IH; [reflexivity|]. intros H. apply Hl. now right.
Qed.

Lemma trim_padded_one (l : jsstring) (c : N) :
  isWhiteSpace c = true -> trim (l ++ [c]) = trim l.
Proof.
  intros Hc. induction l as [|x l IH].
  - unfold trim. simpl. now rewrite Hc.
  - unfold trim in *. simpl. destruct (isWhiteSpace x) eqn:Ex; [exact IH|].
    unfold trimEnd. change (x :: l ++ [c]) with ((x :: l) ++ [c]).
    rewrite rev_app_distr. simpl. now rewrite Hc.
Qed.

Lemma trim_padded (pad l : jsstring) :
  forallb isWhiteSpace pad = true -> trim (l ++ pad) = trim l.
Proof.
  revert l. induction pad as [|c pad IH]; intros l Hp; simpl in Hp.
  - now rewrite app_nil_r.
  - apply andb_true_iff in Hp as [Hc Hp].
    change (l ++ c :: pad) with (l ++ [c] ++ pad).
    rewrite app_assoc, IH by assumption. now apply trim_padded_one.
Qed.

Lemma linesOf_joinLines (pad : jsstring) (lines : list jsstring) :
  Forall (fun l => ~ In 10%N l) lines ->
  forallb isWhiteSpace pad = true -> ~ In 10%N pad ->
  linesOf (joinLines (pad ++ [10%N]) lines) = linesOf (joinLines [10%N] lines).
Proof.
  intros Hl Hp Hn. induction Hl as [|l more Hl Hmore IH]; [reflexivity|].
  destruct more as [|l' more]; [reflexivity|].
  change (joinLines (pad ++ [10%N]) (l :: l' :: more))
    with (l ++ (pad ++ [10%N]) ++ joinLines (pad ++ [10%N]) (l' :: more)).
  change (joinLines [10%N] (l :: l' :: more))
    with (l ++ [10%N] ++ joinLines [10%N] (l' :: more)).
  unfold linesOf in *.
  rewrite <- app_assoc. cbn [app]. rewrite (app_assoc l pad).
  rewrite !split_line; [|assumption|].
  - cbn [map]. rewrite IH. now rewrite trim_padded.
  - intros H. apply in_app_or in H as [H|H]; contradiction.
Qed.

(** White space before the line feeds does not matter: a text whose lines
    end in a carriage return and a line feed, or in any white space
    followed by a line feed, is parsed exactly like the same lines
    separated by line feeds alone. *)
Theorem parse_line_endings
  (toLowerCase : jsstring -> jsstring) (clock : nat -> Z)
  (pad : jsstring) (lines : list jsstring) :
  Forall (fun l => ~ In 10%N l) lines ->
  forallb isWhiteSpace pad = true -> ~ In 10%N pad ->
  parse toLowerCase clock (joinLines (pad ++ [10%N]) lines)
  = parse toLowerCase clock (joinLines [10%N] lines).
Proof.
  intros Hl Hp Hn. unfold parse.
  now rewrite (linesOf_joinLines pad lines Hl Hp Hn).
Qed.

Lemma parse_line_endings_witness :
  parse asciiLower (fixedClock 0) (joinLines ([13%N] ++ [10%N]) overrideLines)
  = parse asciiLower (fixedClock 0) (joinLines [10%N] overrideLines).
Proof.
  apply (parse_line_endings asciiLower (fixedClock 0) [13%N] overrideLines).
  - repeat constructor; vm_compute; intuition discriminate.
  - reflexivity.
  - vm_compute. intuition discriminate.
Defined.

(** ** Group overrides *)

Lemma extgrp_not_extinf (line : jsstring) :
  isExtgrp line = true -> isExtinf line = false.
Proof.
  intros H. apply startsWith_spec in H as [r ->]. reflexivity.
Qed.

(** A group-override line overrides the group of the pending entry: when a
    descriptor is pending, an [#EXTGRP:] line with a non-empty text
    followed by a URL line emits one channel whose [groupTitle] is that
    text, trimmed, whatever [group-title] the metadata line gave; the text
    is in the set of groups and stays the current group for the entries
    that follow. *)
Theorem extgrp_overrides
  (toLowerCase : jsstring -> jsstring) (now1 now2 : Z) (st : scan)
  (info : Info.t) (grp url : jsstring) :
  currentInfo st = Some info ->
  isExtgrp grp = true -> truthy (trim (substring grp 8)) = true ->
  isUrl url = true ->
  exists c,
    chans (step toLowerCase now2 (step toLowerCase now1 st grp) url)
    = chans st ++ [c]
    /\ Channel.groupTitle c = trim (substring grp 8)
    /\ Channel.url c = url
    /\ Channel.name c = Info.name info
    /\ In (trim (substring grp 8))
         (groupsSet (step toLowerCase now2 (step toLowerCase now1 st grp) url))
    /\ currentGroup (step toLowerCase now2 (step toLowerCase now1 st grp) url)
       = Some (trim (substring grp 8))
    /\ currentInfo (step toLowerCase now2 (step toLowerCase now1 st grp) url)
       = None.
Proof.
  intros Hc Hg Ht Hu.
  pose proof (extgrp_not_extinf grp Hg) as Hgi.
  assert (Hui : isExtinf url = false).
  { destruct (isExtinf url) eqn:E; [|reflexivity].
    apply comment_prefix in E as [Hcm _]. unfold isUrl in Hu.
    rewrite Hcm in Hu. now rewrite andb_false_r in Hu. }
  assert (Hug : isExtgrp url = false).
  { destruct (isExtgrp url) eqn:E; [|reflexivity].
    apply comment_prefix in E as [Hcm _]. unfold isUrl in Hu.
    rewrite Hcm in Hu. now rewrite andb_false_r in Hu. }
  remember (trim (substring grp 8)) as g eqn:Eg.
  assert (E1 : step toLowerCase now1 st grp
               = {| currentInfo := Some (setGroupTitle g info);
                    currentGroup := Some g;
                    chans := chans st;
                    groupsSet := setAdd g (groupsSet st) |}).
  { unfold step. fold (isExtinf grp) (isExtgrp grp).
    rewrite Hgi, Hg, Hc, <- Eg. reflexivity. }
  rewrite E1.
  assert (E2 : forall st',
             currentInfo st' = Some (setGroupTitle g info) ->
             step toLowerCase now2 st' url
             = {| currentInfo := None; currentGroup := currentGroup st';
                  chans := chans st'
                           ++ [makeChannel (setGroupTitle g info)
                                 (currentGroup st') url];
                  groupsSet := groupsSet st' |}).
  { intros st' Hst. unfold step.
    fold (isExtinf url) (isExtgrp url) (isComment url) (isUrl url).
    now rewrite Hui, Hug, Hu, Hst. }
  rewrite E2 by reflexivity.
  cbn [chans currentGroup currentInfo groupsSet].
  eexists. split; [reflexivity|].
  unfold makeChannel, setGroupTitle, or_opt.
  cbn [Channel.groupTitle Channel.url Channel.name Info.groupTitle Info.name
       truthy_opt].
  rewrite Ht. cbn [or_else]. rewrite Ht.
  repeat split. apply setAdd_In. now left.
Qed.

Lemma extgrp_overrides_witness :
  exists c,
    chans (step asciiLower 0
             (step asciiLower 0
                (step asciiLower 0 initial
                   (lit "#EXTINF:-1 group-title=" ++ quoted "News"
                      ++ lit ",Channel A"))
                (lit "#EXTGRP:Sports"))
             (lit "http://a"))
    = [] ++ [c]
    /\ Channel.groupTitle c = lit "Sports".
Proof.
  destruct (extgrp_overrides asciiLower 0 0
              (step asciiLower 0 initial
                 (lit "#EXTINF:-1 group-title=" ++ quoted "News"
                    ++ lit ",Channel A"))
              (parseExtinf asciiLower 0
                 (lit "#EXTINF:-1 group-title=" ++ quoted "News"
                    ++ lit ",Channel A"))
              (lit "#EXTGRP:Sports") (lit "http://a")
              eq_refl eq_refl eq_refl eq_refl)
    as (c & Hc & Hg & _).
  exists c. split; [exact Hc|exact Hg].
Defined.

(** ** What [parseExtinf] extracts *)












Lemma replaceSpaceRuns_no_space (inRun : bool) (s : jsstring) :
  Forall (fun c => isWhiteSpace c = false) (replaceSpaceRuns inRun s).
Proof.
  revert inRun. induction s as [|c s IH]; intros inRun; simpl; [constructor|].
  destruct (isWhiteSpace c) eqn:E.
  - destruct inRun; [apply IH|]. constructor; [reflexivity|apply IH].
  - constructor; [assumption|apply IH].
Qed.

(** The identifier [parseExtinf] makes from the name holds no white space:
    when the line has a numeric duration, no non-empty [tvg-id] attribute
    and a non-empty name, the [tvgId] of the descriptor is the lower-cased
    name with its white-space runs replaced, and none of its code units is
    a white-space unit. *)
Theorem synthesized_tvgId_no_space
  (toLowerCase : jsstring -> jsstring) (now : Z) (line name : jsstring) :
  hasDuration line = true ->
  truthy_opt (tvgIdAttribute line) = false ->
  Info.name (parseExtinf toLowerCase now line) = Some name ->
  truthy name = true ->
  exists v,
    Info.tvgId (parseExtinf toLowerCase now line) = Some v
    /\ v = replaceSpaceRuns false (toLowerCase name)
    /\ Forall (fun c => isWhiteSpace c = false) v.
Proof.
  intros Hd Ha Hn Ht.
  destruct (parseExtinf_duration toLowerCase now line Hd) as [name' [Hn' Hid]].
  rewrite Hn in Hn'. injection Hn' as <-.
  rewrite Hid, Ha, Ht. eexists. split; [reflexivity|].
  split; [reflexivity|apply replaceSpaceRuns_no_space].
Qed.

Lemma synthesized_tvgId_no_space_witness :
  exists v,
    Info.tvgId (parseExtinf asciiLower 0 (lit "#EXTINF:-1,Channel  B"))
    = Some v
    /\ v = replaceSpaceRuns false (asciiLower (lit "Channel  B"))
    /\ Forall (fun c => isWhiteSpace c = false) v.
Proof.
  apply (synthesized_tvgId_no_space asciiLower 0
           (lit "#EXTINF:-1,Channel  B") (lit "Channel  B"));
    reflexivity.
Defined.

Lemma stripPrefixCI_any_case (key key' tail rest : jsstring) :
  map canonicalize key' = map canonicalize key ->
  stripPrefixCI (key ++ tail) (key' ++ rest) = stripPrefixCI tail rest.
Proof.
  revert key'. induction key as [|a key IH]; intros [|b key'] H;
    try discriminate; [reflexivity|].
  simpl in *. injection H as Hb Hk. rewrite Hb, N.eqb_refl. now apply IH.
Qed.

Lemma span_until (f : N -> bool) (a b : jsstring) (c : N) :
  (forall x, In x a -> f x = true) -> f c = false ->
  span f (a ++ c :: b) = (a, c :: b).
Proof.
  intros Ha Hc. induction a as [|x a IH]; simpl.
  - now rewrite Hc.
  - rewrite (Ha x) by now left. rewrite IH; [reflexivity|].
    intros y Hy. apply Ha. now right.
Qed.

(** Attribute keys are matched in any letter case, and the value runs up to
    the next double quote: at the place where the key, [=] and a quoted
    value stand, the attribute pattern captures exactly the value, whatever
    follows the closing quote. *)
Theorem attribute_any_case (key key' value tail : jsstring) :
  map canonicalize key' = map canonicalize key ->
  ~ In 34%N value ->
  regexSearch (attrPattern key) (key' ++ 61%N :: 34%N :: value ++ 34%N :: tail)
  = Some value.
Proof.
  intros Hk Hv.
  assert (H : attrPattern key (key' ++ 61%N :: 34%N :: value ++ 34%N :: tail)
              = Some value).
  { unfold attrPattern.
    rewrite (stripPrefixCI_any_case key key' [61%N; 34%N]) by assumption.
    cbn [stripPrefixCI canonicalize]. simpl N.eqb. cbn iota.
    rewrite (span_until _ value tail 34).
    - reflexivity.
    - intros x Hx. destruct (N.eqb_spec x 34) as [->|]; [contradiction|reflexivity].
    - reflexivity. }
  destruct (key' ++ 61%N :: 34%N :: value ++ 34%N :: tail); simpl;
    now rewrite H.
Qed.

Lemma attribute_any_case_witness :
  regexSearch (attrPattern (lit "tvg-id"))
    (lit "TVG-Id" ++ 61%N :: 34%N :: lit "bbc1" ++ 34%N :: lit " x,BBC")
  = Some (lit "bbc1").
Proof.
  apply (attribute_any_case (lit "tvg-id") (lit "TVG-Id") (lit "bbc1")
           (lit " x,BBC")).
  - reflexivity.
  - vm_compute. intuition discriminate.
Defined.

(** ** The shape of a stable identifier *)

Lemma ToInt32_bounds (z : Z) : -2147483648 <= ToInt32 z < 2147483648.
Proof.
  unfold ToInt32.
  pose proof (Z.mod_pos_bound z 4294967296 ltac:(lia)) as Hb.
  destruct (2147483648 <=? z mod 4294967296) eqn:E;
    [apply Z.leb_le in E | apply Z.leb_gt in E]; lia.
Qed.

Lemma fold_hashStep_bounds (str : jsstring) (h : Z) :
  -2147483648 <= h < 2147483648 ->
  -2147483648 <= fold_left hashStep str h < 2147483648.
Proof.
  revert h. induction str as [|c str IH]; intros h Hh; simpl; [assumption|].
  apply IH. rewrite hashStep_rolling. apply ToInt32_bounds.
Qed.

Lemma digitsRev_shape (fuel k : nat) (n : Z) :
  (1 <= k)%nat -> 0 <= n < 36 ^ Z.of_nat k ->
  (List.length (digitsRev (S fuel) 36 n) <= k)%nat
  /\ (1 <= List.length (digitsRev (S fuel) 36 n))%nat
  /\ Forall (fun d => 0 <= d < 36) (digitsRev (S fuel) 36 n).
Proof.
  revert k n. induction fuel as [|fuel IH]; intros k n Hk Hn.
  - simpl. destruct (n <? 36) eqn:E; simpl.
    + apply Z.ltb_lt in E. repeat split; try lia. repeat constructor; lia.
    + repeat split; try lia. constructor; [|constructor].
      apply Z.mod_pos_bound. lia.
  - change (digitsRev (S (S fuel)) 36 n)
      with (if n <? 36 then [n]
            else n mod 36 :: digitsRev (S fuel) 36 (n / 36)).
    destruct (n <? 36) eqn:E.
    + apply Z.ltb_lt in E. simpl. repeat split; try lia.
      repeat constructor; lia.
    + apply Z.ltb_ge in E.
      destruct k as [|[|k]]; [lia| |].
      * change (36 ^ Z.of_nat 1) with 36 in Hn. lia.
      * assert (Hq : 0 <= n / 36 < 36 ^ Z.of_nat (S k)).
        { split; [apply Z.div_pos; lia|].
          apply Z.div_lt_upper_bound; [lia|].
          replace (Z.of_nat (S (S k))) with (Z.of_nat (S k) + 1) in Hn by lia.
          rewrite Z.pow_add_r in Hn by lia. lia. }
        destruct (IH (S k) (n / 36) ltac:(lia) Hq) as (H1 & H2 & H3).
        cbn [List.length]. repeat split; try lia.
        constructor; [apply Z.mod_pos_bound; lia|assumption].
Qed.

(** A stable identifier is the tag [m3u_] followed by one to six
    characters, each a decimal digit or a lower-case letter: it is at most
    ten code units long and holds nothing but letters, digits and the
    underscore of the tag. *)
Theorem generateStableId_shape (name group : nullable) :
  exists digits,
    generateStableId name group = lit "m3u_" ++ digits
    /\ (1 <= List.length digits <= 6)%nat
    /\ Forall (fun c => (48 <= c <= 57 \/ 97 <= c <= 122)%N) digits.
Proof.
  unfold generateStableId. eexists. split; [reflexivity|].
  pose proof (fold_hashStep_bounds
                (or_else name (lit "unknown") ++ lit ":"
                 ++ or_else group (lit "unknown")) 0 ltac:(lia)) as Hb.
  set (h := fold_left hashStep _ 0) in *.
  unfold toStringRadix.
  assert ((Z.abs h <? 0) = false) as -> by (apply Z.ltb_ge; lia).
  rewrite Z.abs_idemp.
  destruct (digitsRev_shape (Z.to_nat (Z.log2 (Z.abs h))) 6 (Z.abs h)
              ltac:(lia)) as (H1 & H2 & H3).
  { change (36 ^ Z.of_nat 6) with 2176782336. lia. }
  rewrite length_map, length_rev. split; [lia|].
  apply Forall_map, Forall_rev.
  apply (Forall_impl _ (P := fun d => 0 <= d < 36)); [|assumption].
  intros d Hd. unfold digitChar.
  destruct (d <? 10) eqn:E;
    [apply Z.ltb_lt in E|apply Z.ltb_ge in E]; lia.
Qed.

(** Identifiers collide when the colon moves: the hash reads only the
    concatenation [name:group], so a name ending where a group begins
    differently gives the same identifier; and an absent name and an absent
    group are each the same as the literal [unknown]. *)
Theorem generateStableId_collisions (a b c : jsstring) (name group : nullable) :
  a <> [] -> c <> [] ->
  generateStableId (Some (a ++ 58%N :: b)) (Some c)
  = generateStableId (Some a) (Some (b ++ 58%N :: c))
  /\ generateStableId None group = generateStableId (Some (lit "unknown")) group
  /\ generateStableId name None = generateStableId name (Some (lit "unknown")).
Proof.
  intros Ha Hc. split; [|split; reflexivity].
  unfold generateStableId.
  assert (E : or_else (Some (a ++ 58%N :: b)) (lit "unknown") ++ lit ":"
                ++ or_else (Some c) (lit "unknown")
              = or_else (Some a) (lit "unknown") ++ lit ":"
                ++ or_else (Some (b ++ 58%N :: c)) (lit "unknown")).
  { destruct a as [|x a]; [congruence|]. destruct c as [|y c]; [congruence|].
    cbn [or_else truthy app].
    assert (truthy (b ++ 58%N :: y :: c) = true) as -> by now destruct b.
    change (lit ":") with [58%N]. cbn [app].
    rewrite <- !app_assoc. reflexivity. }
  now rewrite E.
Qed.

Lemma generateStableId_collisions_witness :
  generateStableId (Some (lit "BBC:One")) (Some (lit "UK"))
  = generateStableId (Some (lit "BBC")) (Some (lit "One:UK"))
  /\ generateStableId None (Some (lit "UK"))
     = generateStableId (Some (lit "unknown")) (Some (lit "UK"))
  /\ generateStableId (Some (lit "BBC")) None
     = generateStableId (Some (lit "BBC")) (Some (lit "unknown")).
Proof.
  apply (generateStableId_collisions (lit "BBC") (lit "One") (lit "UK")
           (Some (lit "BBC")) (Some (lit "UK"))); discriminate.
Defined.

Lemma digitsRev_value (fuel : nat) (n : Z) :
  (1 <= fuel)%nat -> 0 <= n < 36 ^ Z.of_nat fuel ->
  fold_right (fun d a => d + 36 * a) 0 (digitsRev fuel 36 n) = n.
Proof.
  revert n. induction fuel as [|fuel IH]; intros n Hf Hn; [lia|].
  cbn [digitsRev]. destruct (n <? 36) eqn:E.
  - simpl. lia.
  - apply Z.ltb_ge in E. cbn [fold_right].
    destruct fuel as [|fuel].
    + change (36 ^ Z.of_nat 1) with 36 in Hn. lia.
    + rewrite IH; [|lia|].
      * pose proof (Z.div_mod n 36 ltac:(lia)). lia.
      * split; [apply Z.div_pos; lia|].
        apply Z.div_lt_upper_bound; [lia|].
        replace (Z.of_nat (S (S fuel))) with (Z.of_nat (S fuel) + 1) in Hn by lia.
        rewrite Z.pow_add_r in Hn by lia. lia.
Qed.

Lemma fromBase36_digits (ds : list Z) :
  Forall (fun d => 0 <= d < 36) ds ->
  fromBase36 (map digitChar (rev ds)) = fold_right (fun d a => d + 36 * a) 0 ds.
Proof.
  intros H. unfold fromBase36. rewrite <- fold_left_rev_right.
  rewrite <- map_rev, rev_involutive.
  induction H as [|d ds Hd Hds IH]; [reflexivity|].
  cbn [map fold_right]. rewrite IH.
  assert (E : digitOf (digitChar d) = d); [|lia].
  unfold digitOf, digitChar.
  destruct (d <? 10) eqn:E; [apply Z.ltb_lt in E|apply Z.ltb_ge in E].
  - assert ((Z.to_N (48 + d) <=? 57)%N = true) as -> by (apply N.leb_le; lia).
    lia.
  - assert ((Z.to_N (87 + d) <=? 57)%N = false) as -> by (apply N.leb_gt; lia).
    lia.
Qed.

(** The identifier encodes the hash: after the tag [m3u_], the digits read
    in base 36 give back the absolute value of the 32-bit rolling hash of
    [name:group], so two identifiers are equal exactly when these absolute
    values are. *)
Theorem generateStableId_reads_back (name group : nullable) :
  fromBase36 (skipn 4 (generateStableId name group))
  = Z.abs (fold_left hashStep
             (or_else name (lit "unknown") ++ lit ":"
              ++ or_else group (lit "unknown")) 0)
  /\ forall name' group',
       generateStableId name group = generateStableId name' group'
       <-> Z.abs (fold_left hashStep
                    (or_else name (lit "unknown") ++ lit ":"
                     ++ or_else group (lit "unknown")) 0)
           = Z.abs (fold_left hashStep
                      (or_else name' (lit "unknown") ++ lit ":"
                       ++ or_else group' (lit "unknown")) 0).
Proof.
  assert (H : forall n g,
             fromBase36 (skipn 4 (generateStableId n g))
             = Z.abs (fold_left hashStep
                        (or_else n (lit "unknown") ++ lit ":"
                         ++ or_else g (lit "unknown")) 0)).
  { intros n g. unfold generateStableId.
    set (h := fold_left hashStep _ 0).
    change (skipn 4 (lit "m3u_" ++ toStringRadix 36 (Z.abs h)))
      with (toStringRadix 36 (Z.abs h)).
    unfold toStringRadix.
    assert ((Z.abs h <? 0) = false) as -> by (apply Z.ltb_ge; lia).
    rewrite Z.abs_idemp.
    assert (Hn : 0 <= Z.abs h < 36 ^ Z.of_nat (S (Z.to_nat (Z.log2 (Z.abs h))))).
    { split; [lia|].
      destruct (Z.eq_dec (Z.abs h) 0) as [->|Hz]; [reflexivity|].
      pose proof (Z.log2_spec (Z.abs h) ltac:(lia)) as [_ Hl].
      pose proof (Z.log2_nonneg (Z.abs h)) as Hl0.
      rewrite Nat2Z.inj_succ, Z2Nat.id by assumption.
      eapply Z.lt_le_trans; [exact Hl|].
      apply Z.pow_le_mono_l. lia. }
    rewrite fromBase36_digits.
    - apply digitsRev_value; [lia|assumption].
    - destruct (Z.to_nat (Z.log2 (Z.abs h))) as [|k] eqn:Ek.
      + destruct (digitsRev_shape 0 1 (Z.abs h) ltac:(lia) Hn) as (_ & _ & H3).
        exact H3.
      + destruct (digitsRev_shape (S k) (S (S k)) (Z.abs h) ltac:(lia) Hn)
          as (_ & _ & H3).
        exact H3. }
  split; [apply H|].
  intros name' group'. split.
  - intros E. rewrite <- !H. now rewrite E.
  - intros E. unfold generateStableId. now rewrite E.
Qed.
